(** * Aquasimng: the ALOHA trace parser of [scripts/trace_parser_aloha.py]

    A shallow embedding of the trace parser and of the metrics over its
    result.  Python's exceptions are the [Err] branch of a small error
    monad; Python floats are modelled as exact rationals [Q] (rounding is
    not modelled); strings are ASCII strings. *)

From Stdlib Require Import ZArith QArith Qfield Lia List Bool Ascii String.
Import ListNotations.
Open Scope Z_scope.

(** ** Python exceptions and the error monad *)

Inductive exn :=
| ValueError
| IndexError
| KeyError
| NameError
| ZeroDivisionError
(** a literal Python accepts but [Q] cannot represent ([inf], [nan]) *)
| Unsupported.

Inductive res (A : Type) : Type :=
| Ok : A -> res A
| Err : exn -> res A.
Arguments Ok {A} _.
Arguments Err {A} _.

Definition bind {A B} (m : res A) (f : A -> res B) : res B :=
  match m with Ok a => f a | Err e => Err e end.

Notation "x <- m ;; k" := (bind m (fun x => k))
  (at level 61, m at next level, right associativity).

(** ** Characters and Python's string primitives *)

Definition is_digit (c : ascii) : bool :=
  let n := nat_of_ascii c in (48 <=? n)%nat && (n <=? 57)%nat.

Definition digit_val (c : ascii) : Z := Z.of_nat (nat_of_ascii c) - 48.

(** [str.isspace] / regex [\s] on ASCII: \t \n \v \f \r, \x1c-\x1f, space. *)
Definition is_space (c : ascii) : bool :=
  let n := nat_of_ascii c in
  ((9 <=? n)%nat && (n <=? 13)%nat) || ((28 <=? n)%nat && (n <=? 32)%nat).

Definition chars (s : string) : list ascii := list_ascii_of_string s.

Fixpoint lstrip (l : list ascii) : list ascii :=
  match l with
  | c :: r => if is_space c then lstrip r else l
  | [] => []
  end.

Definition strip (l : list ascii) : list ascii := rev (lstrip (rev (lstrip l))).

(** [str.isdigit]: non-empty and every character a digit. *)
Definition isdigit (s : string) : bool :=
  match chars s with
  | [] => false
  | l => forallb is_digit l
  end.

(** Python's [s[1:]]. *)
Definition tail_str (s : string) : string :=
  match s with EmptyString => EmptyString | String _ r => r end.

(** Python's [s[:-1]]. *)
Definition drop_last (s : string) : string :=
  string_of_list_ascii (removelast (chars s)).

(** Python's [s[0]]. *)
Definition first_char (s : string) : res ascii :=
  match s with EmptyString => Err IndexError | String c _ => Ok c end.

(** ** [int(str)] *)

(** Digits with single [_] separators between digits ([need] = a digit
    must come next). *)
Fixpoint digitpart (need : bool) (l : list ascii) (acc : Z) : option Z :=
  match l with
  | [] => if need then None else Some acc
  | c :: r =>
      if is_digit c then digitpart false r (10 * acc + digit_val c)
      else if (Ascii.eqb c "_") && negb need then digitpart true r acc
      else None
  end.

Definition py_int (s : string) : res Z :=
  let l := strip (chars s) in
  let r := match l with
           | c :: r => if Ascii.eqb c "-" then option_map Z.opp (digitpart true r 0)
                       else if Ascii.eqb c "+" then digitpart true r 0
                       else digitpart true l 0
           | [] => None
           end in
  match r with Some z => Ok z | None => Err ValueError end.

(** ** [convert_string_to_int] (AddressDecoder) *)

Definition convert_string_to_int (s : string) : res Z :=
  if (String.length s <? 1)%nat || (4 <? String.length s)%nat then Err ValueError
  else if negb (isdigit s) then Err ValueError
  else match s with
       | EmptyString => Err IndexError
       | String c rest =>
           if Ascii.eqb c "0" then
             if (1 <? String.length s)%nat then py_int rest
             else Ok 0
           else if (String.length s =? 1)%nat then py_int s
           else first_digit <- py_int (String c EmptyString) ;;
                remaining_digits <- py_int rest ;;
                Ok (first_digit * 255 + remaining_digits)
       end.

(** ** [float(str)] *)

(** Greedy digit part with [_] separators, as a prefix: value, number of
    digits, rest.  [None] when no digit comes first. *)
Fixpoint digits_prefix_aux (l : list ascii) (acc : Z) (n : nat)
  : Z * nat * list ascii :=
  match l with
  | c :: r =>
      if is_digit c then digits_prefix_aux r (10 * acc + digit_val c) (S n)
      else if Ascii.eqb c "_" then
        match r with
        | c' :: _ => if is_digit c' then digits_prefix_aux r acc n else (acc, n, l)
        | [] => (acc, n, l)
        end
      else (acc, n, l)
  | [] => (acc, n, [])
  end.

Definition digits_prefix (l : list ascii) : option (Z * nat * list ascii) :=
  match l with
  | c :: _ => if is_digit c then Some (digits_prefix_aux l 0 0) else None
  | [] => None
  end.

(** [digitpart ["." [digitpart]] | "." digitpart]: mantissa, fraction
    digits, rest. *)
Definition mantissa (l : list ascii) : option (Z * nat * list ascii) :=
  match digits_prefix l with
  | Some (i, _, rest) =>
      match rest with
      | c :: r2 =>
          if Ascii.eqb c "." then
            match digits_prefix r2 with
            | Some (f, k, r3) => Some (i * 10 ^ Z.of_nat k + f, k, r3)
            | None => Some (i, O, r2)
            end
          else Some (i, O, rest)
      | [] => Some (i, O, rest)
      end
  | None =>
      match l with
      | c :: r2 => if Ascii.eqb c "." then digits_prefix r2 else None
      | [] => None
      end
  end.

Definition exponent (l : list ascii) : option Z :=
  match l with
  | [] => Some 0
  | c :: r =>
      if Ascii.eqb c "e" || Ascii.eqb c "E" then
        let '(neg, r') := match r with
                          | s :: r' => if Ascii.eqb s "-" then (true, r')
                                       else if Ascii.eqb s "+" then (false, r')
                                       else (false, r)
                          | [] => (false, r)
                          end in
        match digits_prefix r' with
        | Some (e, _, []) => Some (if neg then - e else e)
        | _ => None
        end
      else None
  end.

Definition lower (c : ascii) : ascii :=
  let n := nat_of_ascii c in
  if (65 <=? n)%nat && (n <=? 90)%nat then ascii_of_nat (n + 32) else c.

Definition is_special (l : list ascii) : bool :=
  let w := string_of_list_ascii (map lower l) in
  String.eqb w "inf" || String.eqb w "infinity" || String.eqb w "nan".

Definition py_float (s : string) : res Q :=
  let l := strip (chars s) in
  let '(neg, body) := match l with
                      | c :: r => if Ascii.eqb c "-" then (true, r)
                                  else if Ascii.eqb c "+" then (false, r)
                                  else (false, l)
                      | [] => (false, l)
                      end in
  if is_special body then Err Unsupported
  else match mantissa body with
       | None => Err ValueError
       | Some (m, k, rest) =>
           match exponent rest with
           | None => Err ValueError
           | Some e =>
               let m' := if neg then - m else m in
               let d := e - Z.of_nat k in
               Ok (if 0 <=? d then inject_Z (m' * 10 ^ d)
                   else m' # Z.to_pos (10 ^ (- d)))
           end
       end.

(** ** Regex search and the other string helpers of the parser *)

Fixpoint strip_prefix (key s : string) : option string :=
  match key, s with
  | EmptyString, _ => Some s
  | String k key', String c s' => if Ascii.eqb k c then strip_prefix key' s' else None
  | String _ _, EmptyString => None
  end.

Fixpoint take_while (ok : ascii -> bool) (s : string) : string :=
  match s with
  | String c s' => if ok c then String c (take_while ok s') else EmptyString
  | EmptyString => EmptyString
  end.

(** [re.search(key + "(X+)", s).group(1)] for a character class [X] and a
    literal [key]: leftmost start, greedy run of at least one character. *)
Fixpoint re_search (key : string) (ok : ascii -> bool) (s : string) : option string :=
  match match strip_prefix key s with
        | Some rest => match take_while ok rest with
                       | EmptyString => None
                       | v => Some v
                       end
        | None => None
        end with
  | Some v => Some v
  | None => match s with
            | EmptyString => None
            | String _ s' => re_search key ok s'
            end
  end.

Definition value_char (c : ascii) : bool := negb (Ascii.eqb c ")" || is_space c).

Definition ends_with_comma (s : string) : bool :=
  match rev (chars s) with c :: _ => Ascii.eqb c "," | [] => false end.

Definition parse_field_value (line field_name : string) : option string :=
  match re_search (field_name ++ "=") value_char line with
  | Some value => Some (if ends_with_comma value then drop_last value else value)
  | None => None
  end.

(** Python truthiness of a match: [None] and [""] are false. *)
Definition truthy (o : option string) : option string :=
  match o with Some EmptyString => None | _ => o end.

Definition default_str (o : option string) (d : string) : string :=
  match truthy o with Some v => v | None => d end.

(** [s.split(sep)] for a one-character separator. *)
Fixpoint split_chars (sep : ascii) (l : list ascii) (cur : list ascii)
  : list string :=
  match l with
  | [] => [string_of_list_ascii (rev cur)]
  | c :: r => if Ascii.eqb c sep then string_of_list_ascii (rev cur) :: split_chars sep r []
              else split_chars sep r (c :: cur)
  end.

Definition split_on (sep : ascii) (s : string) : list string := split_chars sep (chars s) [].

Definition nth_err {A} (l : list A) (n : nat) : res A :=
  match nth_error l n with Some a => Ok a | None => Err IndexError end.

(** [.replace('+', '')] *)
Definition remove_plus (s : string) : string :=
  string_of_list_ascii (filter (fun c => negb (Ascii.eqb c "+")) (chars s)).

(** [.replace('ns', '')]: left to right, non-overlapping. *)
Fixpoint remove_ns_l (l : list ascii) : list ascii :=
  match l with
  | c :: r =>
      if Ascii.eqb c "n" then
        match r with
        | c' :: r' => if Ascii.eqb c' "s" then remove_ns_l r' else c :: remove_ns_l r
        | [] => [c]
        end
      else c :: remove_ns_l r
  | [] => []
  end.

Definition remove_ns (s : string) : string := string_of_list_ascii (remove_ns_l (chars s)).

(** ** [parse_events] *)

(** The physical lines of the file text (after universal-newline
    translation), as [for line in f] yields them: each keeps its ['\n'],
    the last one may lack it. *)
Fixpoint split_lines (l : list ascii) (cur : list ascii) : list string :=
  match l with
  | [] => match cur with [] => [] | _ => [string_of_list_ascii (rev cur)] end
  | c :: r => if Ascii.eqb c "010" then string_of_list_ascii (rev (c :: cur)) :: split_lines r []
              else split_lines r (c :: cur)
  end.

Definition file_lines (text : string) : list string := split_lines (chars text) [].

(** [line[0] == "t" or line[0] == "r"]; the lines of a file are never empty. *)
Definition starts_tr (line : string) : bool :=
  match line with
  | String c _ => Ascii.eqb c "t" || Ascii.eqb c "r"
  | EmptyString => false
  end.

Fixpoint parse_events_loop (lines : list string) (event : string) (i : nat)
  (EVENTS : list string) : list string :=
  match lines with
  | [] => EVENTS ++ [event]
  | line :: rest =>
      if starts_tr line && negb (Nat.eqb i 0) then
        parse_events_loop rest (drop_last line) (S i) (EVENTS ++ [event])
      else parse_events_loop rest (event ++ drop_last line) (S i) EVENTS
  end.

Definition parse_events (text : string) : list string :=
  parse_events_loop (file_lines text) "" 0 [].

(** ** Configuration constants *)

Open Scope Q_scope.

Definition TX_POWER : Q := 60.
Definition RX_POWER : Q := 158 # 1000.
Definition IDLE_POWER : Q := 158 # 1000.
Definition LINK_SPEED : Q := 80000.
Definition PACKET_SIZE : Z := 800.

(** ** The record table and the node-state map *)

Inductive mode := TX | RX.

Definition mode_eqb (a b : mode) : bool :=
  match a, b with TX, TX | RX, RX => true | _, _ => false end.

(** One row of [TRACE]: the i-th entry of each of its parallel lists
    (every branch of [parse_fields] appends to all of them). *)
Record trace_row := {
  MODE : mode;
  TS : Q;
  NODE_ID : Z;
  ROW_TX_POWER : Q;
  ROW_RX_POWER : Q;
  TX_TIME : Q;
  DIRECTION : string;
  NUM_FORWARDS : Z;
  ERROR : string;
  UNIQUE_ID : Z;
  PTYPE : string;
  PAYLOAD_SIZE : Z;
  MAC_SRC_ADDR : string;
  MAC_DST_ADDR : string;
  ORIGINAL_LINE : string;
  bad : Z
}.

Definition TRACE := list trace_row.

Record node_values := {
  PROCESSED_RX_COUNT : Z;
  RX_ENERGY : Q;
  TX_ENERGY : Q;
  IDLE_ENERGY : Q;
  COLLISION_COUNT : Z;
  LAST_TS : Q
}.

Definition NODE_VALUES : node_values :=
  {| PROCESSED_RX_COUNT := 0; RX_ENERGY := 0; TX_ENERGY := 0;
     IDLE_ENERGY := 0; COLLISION_COUNT := 0; LAST_TS := 0 |}.

(** A Python dict keyed by node id, in insertion order. *)
Definition NODE_INFO := list (Z * node_values).

Fixpoint dict_get (k : Z) (d : NODE_INFO) : option node_values :=
  match d with
  | [] => None
  | (k', v) :: d' => if Z.eqb k k' then Some v else dict_get k d'
  end.

(** [d[k] = v]: in place when [k] is present, appended otherwise. *)
Fixpoint dict_set (k : Z) (v : node_values) (d : NODE_INFO) : NODE_INFO :=
  match d with
  | [] => [(k, v)]
  | (k', v') :: d' => if Z.eqb k k' then (k', v) :: d' else (k', v') :: dict_set k v d'
  end.

Definition dict_lookup (k : Z) (d : NODE_INFO) : res node_values :=
  match dict_get k d with Some v => Ok v | None => Err KeyError end.

Definition initial_NODE_INFO : NODE_INFO :=
  map (fun i => (Z.of_nat i, NODE_VALUES)) (seq 0 300).

Definition ensure_node_exists (node_id : Z) (d : NODE_INFO) : NODE_INFO :=
  match dict_get node_id d with
  | Some _ => d
  | None => d ++ [(node_id, NODE_VALUES)]
  end.

(** ** NodeStateTracker: the node-state updates of [parse_fields] *)

(** [(header_size * 8) / LINK_SPEED] *)
Definition air_time (header_size : Z) : Q := inject_Z (header_size * 8) / LINK_SPEED.

(** Lines 173-188: the TX update of one node; returns the new node and
    the value appended to [TRACE["bad"]]. *)
Definition tx_update (v : node_values) (ts : Q) (header_size : Z) : node_values * Z :=
  let tx1 := TX_ENERGY v + air_time header_size * TX_POWER in
  let tx2 := tx1 + air_time header_size * IDLE_POWER in
  if Qle_bool (LAST_TS v) ts then
    ({| PROCESSED_RX_COUNT := PROCESSED_RX_COUNT v; RX_ENERGY := RX_ENERGY v;
        TX_ENERGY := tx2;
        IDLE_ENERGY := IDLE_ENERGY v + ((ts - LAST_TS v) / 1000000000) * IDLE_POWER;
        COLLISION_COUNT := COLLISION_COUNT v;
        LAST_TS := ts + air_time header_size |}, 0%Z)
  else
    ({| PROCESSED_RX_COUNT := PROCESSED_RX_COUNT v; RX_ENERGY := RX_ENERGY v;
        TX_ENERGY := tx2; IDLE_ENERGY := IDLE_ENERGY v;
        COLLISION_COUNT := COLLISION_COUNT v + 1; LAST_TS := LAST_TS v |}, 1%Z).

(** Lines 271-285: the RX update of one node. *)
Definition rx_update (v : node_values) (ts : Q) (header_size : Z) : node_values * Z :=
  if Qle_bool (LAST_TS v) (ts - air_time header_size) then
    ({| PROCESSED_RX_COUNT := PROCESSED_RX_COUNT v + 1;
        RX_ENERGY := RX_ENERGY v + air_time header_size * RX_POWER;
        TX_ENERGY := TX_ENERGY v;
        IDLE_ENERGY := IDLE_ENERGY v + ((ts - LAST_TS v) / 1000000000) * IDLE_POWER;
        COLLISION_COUNT := COLLISION_COUNT v;
        LAST_TS := ts |}, 0%Z)
  else
    ({| PROCESSED_RX_COUNT := PROCESSED_RX_COUNT v; RX_ENERGY := RX_ENERGY v;
        TX_ENERGY := TX_ENERGY v; IDLE_ENERGY := IDLE_ENERGY v;
        COLLISION_COUNT := COLLISION_COUNT v + 1; LAST_TS := LAST_TS v |}, 1%Z).

(** ** FieldExtractor: [parse_fields] *)

(** The state of the loop of [parse_fields]: the two tables and the local
    [unique_id], which keeps its value from one iteration to the next and
    is unbound before its first assignment. *)
Record parse_state := {
  st_trace : TRACE;
  st_nodes : NODE_INFO;
  st_unique_id : option Z
}.

Definition initial_state : parse_state :=
  {| st_trace := []; st_nodes := initial_NODE_INFO; st_unique_id := None |}.

(** [int(v)] when the match is truthy, the default otherwise. *)
Definition int_field (line name : string) (d : Z) : res Z :=
  match truthy (parse_field_value line name) with
  | Some v => py_int v
  | None => Ok d
  end.

Definition parse_ts (stripped_line : list string) : res Q :=
  x <- nth_err stripped_line 1 ;; py_float x.

Definition parse_node_id (stripped_line : list string) : res Z :=
  x <- nth_err stripped_line 2 ;; y <- nth_err (split_on "/" x) 2 ;; py_int y.

Definition parse_tx_time (line : string) : res Q :=
  match truthy (parse_field_value line "TxTime") with
  | Some v => match py_float (remove_ns (remove_plus v)) with
              | Err ValueError => Ok 0
              | r => r
              end
  | None => Ok 0
  end.

(** [if uniqueid_match: unique_id = int(uniqueid_match)], then the read of
    [unique_id] (an UnboundLocalError, a NameError, while it is unbound). *)
Definition parse_unique_id (line : string) (prev : option Z) : res Z :=
  match truthy (parse_field_value line "UniqueID") with
  | Some v => py_int v
  | None => match prev with Some u => Ok u | None => Err NameError end
  end.

Definition ptype_of (line : string) : string :=
  match parse_field_value line "PacketType" with None => "UNKNOWN" | Some p => p end.

(** The destination address of an RX line: [DA], else [DestAddress]. *)
Definition rx_mac_dst (line : string) : string :=
  match truthy (parse_field_value line "DA") with
  | Some v => v
  | None => default_str (parse_field_value line "DestAddress") "000"
  end.

(** One iteration of [for line in EVENTS]. *)
Definition parse_line (st : parse_state) (line : string) : res parse_state :=
  let stripped_line := split_on " " line in
  c <- first_char line ;;
  let is_tx := Ascii.eqb c "t" in
  if is_tx || Ascii.eqb c "r" then
    let ptype := ptype_of line in
    ts <- parse_ts stripped_line ;;
    node_id <- parse_node_id stripped_line ;;
    payload_size <- int_field line "Size" 50 ;;
    tx_time <- (if is_tx then parse_tx_time line else Ok 0) ;;
    let direction := default_str (parse_field_value line "Direction") "UNKNOWN" in
    num_forwards <- int_field line "NumForwards" 0 ;;
    let error := default_str (parse_field_value line "Error") "False" in
    unique_id <- parse_unique_id line (st_unique_id st) ;;
    let mac_src := default_str (parse_field_value line "SA") "000" in
    let mac_dst := if is_tx then default_str (parse_field_value line "DA") "000"
                   else rx_mac_dst line in
    let header_size := payload_size in
    let nodes := ensure_node_exists node_id (st_nodes st) in
    v <- dict_lookup node_id nodes ;;
    let '(v', b) := if is_tx then tx_update v ts header_size
                    else rx_update v ts header_size in
    let row := {| MODE := if is_tx then TX else RX; TS := ts; NODE_ID := node_id;
                  ROW_TX_POWER := TX_POWER; ROW_RX_POWER := 0; TX_TIME := tx_time;
                  DIRECTION := direction; NUM_FORWARDS := num_forwards; ERROR := error;
                  UNIQUE_ID := unique_id; PTYPE := ptype; PAYLOAD_SIZE := payload_size;
                  MAC_SRC_ADDR := mac_src; MAC_DST_ADDR := mac_dst;
                  ORIGINAL_LINE := line; bad := b |} in
    Ok {| st_trace := st_trace st ++ [row];
          st_nodes := dict_set node_id v' nodes;
          st_unique_id := Some unique_id |}
  else Ok st.

Fixpoint parse_lines (st : parse_state) (EVENTS : list string) : res parse_state :=
  match EVENTS with
  | [] => Ok st
  | line :: rest => st' <- parse_line st line ;; parse_lines st' rest
  end.

Definition parse_fields (EVENTS : list string) : res (TRACE * NODE_INFO) :=
  st <- parse_lines initial_state EVENTS ;; Ok (st_trace st, st_nodes st).

(** ** MetricsEngine *)

Definition calc_sent_packets (T : TRACE) : Z :=
  fold_left (fun num_sent_packets _ => (num_sent_packets + 1)%Z) T 0%Z.

Definition count_mode (m : mode) (T : TRACE) : Z :=
  Z.of_nat (List.length (filter (fun r => mode_eqb (MODE r) m) T)).

Definition calc_tx_calls (T : TRACE) : Z := count_mode TX T.
Definition calc_rx_calls (T : TRACE) : Z := count_mode RX T.

(** [for i in range(len(NODE_INFO)): res = res + NODE_INFO[i][...]] *)
Fixpoint rx_nocol_loop (NI : NODE_INFO) (i : nat) (n : nat) (acc : Z) : res Z :=
  match n with
  | O => Ok acc
  | S n' => v <- dict_lookup (Z.of_nat i) NI ;;
            rx_nocol_loop NI (S i) n' (acc + PROCESSED_RX_COUNT v)%Z
  end.

Definition calc_rx_nocol_calls (NI : NODE_INFO) : res Z :=
  rx_nocol_loop NI 0 (List.length NI) 0%Z.

Definition calc_energy_consumption (NI : NODE_INFO) : Q :=
  fold_left (fun total '(_, v) => total + RX_ENERGY v + TX_ENERGY v + IDLE_ENERGY v) NI 0.

(** [re.search(r'DestAddress=(\d+)', line).group(1)] *)
Definition dest_address (line : string) : option string :=
  re_search "DestAddress=" is_digit line.

Definition set_add (u : Z) (s : list Z) : list Z :=
  if existsb (Z.eqb u) s then s else s ++ [u].

Fixpoint recv_loop (T : TRACE) (successful_deliveries : list Z) : res (list Z) :=
  match T with
  | [] => Ok successful_deliveries
  | r :: T' =>
      if mode_eqb (MODE r) RX && Z.eqb (bad r) 0 then
        match dest_address (ORIGINAL_LINE r) with
        | Some dest_addr =>
            a <- convert_string_to_int dest_addr ;;
            recv_loop T' (if Z.eqb a (NODE_ID r + 1) then set_add (UNIQUE_ID r) successful_deliveries
                          else successful_deliveries)
        | None => recv_loop T' successful_deliveries
        end
      else recv_loop T' successful_deliveries
  end.

Definition calc_recv_packets (T : TRACE) : res Z :=
  s <- recv_loop T [] ;; Ok (Z.of_nat (List.length s)).

Definition calc_energy_per_bit (NI : NODE_INFO) (T : TRACE) : res Q :=
  let total_energy := calc_energy_consumption NI in
  n_recv_packets <- calc_recv_packets T ;;
  if Z.eqb n_recv_packets 0 then Ok 0
  else Ok (total_energy / inject_Z (n_recv_packets * PACKET_SIZE * 8)).

Definition calc_pdr (T : TRACE) : res Q :=
  n_recv_packets <- calc_recv_packets T ;;
  let n_sent_packets := calc_sent_packets T in
  if Z.eqb n_sent_packets 0 then Err ZeroDivisionError
  else Ok (inject_Z n_recv_packets / inject_Z n_sent_packets).

(** [numpy.array(delays).mean()]; [None] is NaN (empty array). *)
Definition mean (l : list Q) : option Q :=
  match l with
  | [] => None
  | _ => Some (fold_left Qplus l 0 / inject_Z (Z.of_nat (List.length l)))
  end.

(** The inner loop of [calc_delay] over all [j]. *)
Definition delay_samples (T : TRACE) (ri : trace_row) : list Q :=
  map (fun rj => (TS ri - TS rj) / 1000000000)
      (filter (fun rj => Z.eqb (UNIQUE_ID ri) (UNIQUE_ID rj) && mode_eqb (MODE rj) TX) T).

Fixpoint delay_loop (T : TRACE) (rows : TRACE) (processed_ids : list Z) (delays : list Q)
  : res (list Q) :=
  match rows with
  | [] => Ok delays
  | ri :: rows' =>
      d <- py_int (MAC_DST_ADDR ri) ;;
      if Z.eqb d (NODE_ID ri + 1) && negb (existsb (Z.eqb (UNIQUE_ID ri)) processed_ids) then
        delay_loop T rows' (processed_ids ++ [UNIQUE_ID ri]) (delays ++ delay_samples T ri)
      else delay_loop T rows' processed_ids delays
  end.

Definition calc_delay (T : TRACE) : res (option Q) :=
  delays <- delay_loop T T [] [] ;; Ok (mean delays).

(** [detect_tx_conflicts]: RX records whose [ERROR] field is "True". *)
Definition detect_tx_conflicts (T : TRACE) : Z :=
  fold_left (fun collision_count r =>
               if mode_eqb (MODE r) RX && String.eqb (ERROR r) "True"
               then (collision_count + 1)%Z else collision_count) T 0%Z.

Definition calc_total_collisions (NI : NODE_INFO) : Z :=
  fold_left (fun collision_count '(_, v) => (collision_count + COLLISION_COUNT v)%Z) NI 0%Z.

(** [n_tx * TRACE["PAYLOAD_SIZE"][0]] *)
Definition calc_throughput (T : TRACE) : res Z :=
  let n_tx := calc_tx_calls T in
  r0 <- nth_err T 0 ;; Ok (n_tx * PAYLOAD_SIZE r0)%Z.

(** Python's float division [a / b]. *)
Definition py_div (a b : Q) : res Q :=
  if Qeq_bool b 0 then Err ZeroDivisionError else Ok (a / b).

(** The first loop of [calc_isntantaneous_throughput]: the first record
    whose [int(MAC_DST_ADDR)] is its node id + 1 gives [start_ts] and a
    count of 1. *)
Fixpoint first_start (rows : TRACE) : res (Q * Z) :=
  match rows with
  | [] => Ok (0, 0%Z)
  | r :: rows' =>
      d <- py_int (MAC_DST_ADDR r) ;;
      if Z.eqb d (NODE_ID r + 1) then Ok (TS r, 1%Z) else first_start rows'
  end.

Record thr_state := {
  processed_ids : list Z;
  start_ts : Q;
  num_recv_packets : Z;
  timestamps : list Q;
  throughputs : list Q;
  moving_average : list Q;
  previous_average : Q;
  k : Z
}.

(** One iteration of the second loop. *)
Definition thr_step (s : thr_state) (r : trace_row) : res thr_state :=
  d <- py_int (MAC_DST_ADDR r) ;;
  if Z.eqb d (NODE_ID r + 1) && negb (existsb (Z.eqb (UNIQUE_ID r)) (processed_ids s)) then
    let ids := processed_ids s ++ [UNIQUE_ID r] in
    if negb (Qle_bool 10000000000 (TS r - start_ts s)) then
      Ok {| processed_ids := ids; start_ts := start_ts s;
            num_recv_packets := num_recv_packets s + 1;
            timestamps := timestamps s; throughputs := throughputs s;
            moving_average := moving_average s;
            previous_average := previous_average s; k := k s |}
    else
      current_throughput <- py_div (inject_Z (num_recv_packets s * PACKET_SIZE * 8))
                                   ((TS r - start_ts s) / 1000000000) ;;
      step <- py_div (current_throughput - previous_average s) (inject_Z (k s)) ;;
      let current_average := previous_average s + step in
      Ok {| processed_ids := ids; start_ts := TS r; num_recv_packets := 1;
            timestamps := timestamps s ++ [TS r / 1000000000];
            throughputs := throughputs s ++ [current_throughput];
            moving_average := moving_average s ++ [current_average];
            previous_average := current_average; k := k s + 1 |}
  else Ok s.

Fixpoint thr_loop (s : thr_state) (rows : TRACE) : res thr_state :=
  match rows with
  | [] => Ok s
  | r :: rows' => s' <- thr_step s r ;; thr_loop s' rows'
  end.

(** [for i in range(1, len(TRACE["TS"]))]: the rows after the first. *)
Definition calc_isntantaneous_throughput (T : TRACE) : res (list Q * list Q * list Q) :=
  st <- first_start T ;;
  let '(start, n) := st in
  s <- thr_loop {| processed_ids := []; start_ts := start; num_recv_packets := n;
                  timestamps := []; throughputs := []; moving_average := [];
                  previous_average := 0; k := 1 |} (tl T) ;;
  Ok (timestamps s, throughputs s, moving_average s).

(** ** [run_aloha_and_print.py]: metric extraction and the batch loop *)

Fixpoint skip_spaces (s : string) : string :=
  match s with
  | String c s' => if is_space c then skip_spaces s' else s
  | EmptyString => EmptyString
  end.

(** [re.search(key + r'\s*(\d+)', s).group(1)]: [\s] and [\d] are
    disjoint, so the greedy [\s*] never gives characters back. *)
Fixpoint re_search_count (key s : string) : option string :=
  match match strip_prefix key s with
        | Some rest => match take_while is_digit (skip_spaces rest) with
                       | EmptyString => None
                       | v => Some v
                       end
        | None => None
        end with
  | Some v => Some v
  | None => match s with
            | EmptyString => None
            | String _ s' => re_search_count key s'
            end
  end.

Definition int_of_match (m : option string) : res (option Z) :=
  match m with
  | Some g => z <- py_int g ;; Ok (Some z)
  | None => Ok None
  end.

Definition extract_metrics_from_output (output_text : string) : res (option Z * option Z) :=
  let rx_match := re_search_count "RxPackets:" output_text in
  let tx_match := re_search_count "TxCount:" output_text in
  rx_packets <- int_of_match rx_match ;;
  tx_count <- int_of_match tx_match ;;
  Ok (rx_packets, tx_count).

(** A CSV row of [run_batch_simulation]; [None] metrics are the empty
    values written for a skipped failure. *)
Record csv_row := {
  row_n_nodes : Z;
  row_lambda : Q;
  row_repeat : Z;
  row_metrics : option (Z * Z)
}.

Inductive batch_state :=
| Going (completed : nat) (rows : list csv_row)
| Stopped (rows : list csv_row).

Section Batch.

(** [run_single_simulation] (simulator runs, file rewriting and the print
    script) is an external effect: its outcome [(success, rx_packets,
    tx_count)] for the [completed]-th call with the given [n_nodes],
    [lambda_val] and [rng_seed]. *)
Variable run_single_simulation : nat -> Z -> Q -> Z -> bool * option Z * option Z.

Fixpoint repeat_loop (skip_failed : bool) (n_nodes : Z) (lambda_val : Q)
  (repeats : list Z) (completed : nat) (rows : list csv_row) : batch_state :=
  match repeats with
  | [] => Going completed rows
  | repeat :: repeats' =>
      let completed := S completed in
      let rng_seed := repeat in
      match run_single_simulation completed n_nodes lambda_val rng_seed with
      | (true, Some rx_packets, Some tx_count) =>
          repeat_loop skip_failed n_nodes lambda_val repeats' completed
            (rows ++ [{| row_n_nodes := n_nodes; row_lambda := lambda_val;
                         row_repeat := repeat; row_metrics := Some (rx_packets, tx_count) |}])
      | _ =>
          if skip_failed then
            repeat_loop skip_failed n_nodes lambda_val repeats' completed
              (rows ++ [{| row_n_nodes := n_nodes; row_lambda := lambda_val;
                           row_repeat := repeat; row_metrics := None |}])
          else Stopped rows
      end
  end.

Fixpoint combo_loop (skip_failed : bool) (repeats : list Z) (combos : list (Z * Q))
  (completed : nat) (rows : list csv_row) : batch_state :=
  match combos with
  | [] => Going completed rows
  | (n_nodes, lambda_val) :: combos' =>
      match repeat_loop skip_failed n_nodes lambda_val repeats completed rows with
      | Going completed' rows' => combo_loop skip_failed repeats combos' completed' rows'
      | Stopped rows' => Stopped rows'
      end
  end.

(** The return value and the data rows written after the header. *)
Definition run_batch_simulation (n_nodes_list : list Z) (lambda_list : list Q)
  (skip_failed : bool) (repeat_count : Z) : bool * list csv_row :=
  let repeats := map Z.of_nat (seq 1 (Z.to_nat repeat_count)) in
  match combo_loop skip_failed repeats (list_prod n_nodes_list lambda_list) 0 [] with
  | Going _ rows => (true, rows)
  | Stopped rows => (false, rows)
  end.

End Batch.

Section Single.

(** The file and process effects of [run_single_simulation]: whether
    [update_aloha_cc], [update_print_script] and [run_ns3_simulation]
    succeed, and what [run_print_script] returns, at the [call]-th run. *)
Variable update_aloha_cc : nat -> Z -> Q -> bool.
Variable update_print_script : nat -> list Z -> list Q -> bool.
Variable run_ns3_simulation : nat -> option Z -> bool.
Variable run_print_script : nat -> bool -> bool -> bool * string.

Definition run_single_simulation (call : nat) (n_nodes : Z) (lambda_val : Q)
  (stdout_only skip_sim skip_print : bool) (rng_seed : option Z)
  : res (bool * option Z * option Z) :=
  if negb (update_aloha_cc call n_nodes lambda_val) then Ok (false, None, None)
  else if negb (update_print_script call [n_nodes] [lambda_val]) then Ok (false, None, None)
  else if negb skip_sim && negb (run_ns3_simulation call rng_seed) then Ok (false, None, None)
  else if negb skip_print then
    let '(success, output_text) := run_print_script call stdout_only true in
    if negb success then Ok (false, None, None)
    else m <- extract_metrics_from_output output_text ;;
         let '(rx_packets, tx_count) := m in Ok (true, rx_packets, tx_count)
  else Ok (true, None, None).

End Single.

(** A sample of the effects of [run_single_simulation]: every step
    succeeds and the print script reports only [RxPackets]. *)
Definition ok_io_single c n l s :=
  match run_single_simulation (fun _ _ _ => true) (fun _ _ _ => true) (fun _ _ => true)
          (fun _ _ _ => (true, "RxPackets: 3"%string)) c n l false false true (Some s) with
  | Ok t => t
  | Err _ => (false, None, None)
  end.

(** ** Definitions following the spec's words, compared with the code *)

(** The decimal value of a digit string. *)
Definition decimal_value (l : list ascii) : Z :=
  fold_left (fun acc c => 10 * acc + digit_val c)%Z l 0%Z.

(** AddressDecoder as the spec states it: length in [1,4], digits only;
    strip one leading ['0'], else [first_digit * 255 + rest]. *)
Definition valid_address (s : string) : bool :=
  (1 <=? String.length s)%nat && (String.length s <=? 4)%nat && forallb is_digit (chars s).

Definition address_spec (s : string) : Z :=
  (match chars s with
   | c :: r => if Ascii.eqb c "0" then decimal_value r
               else match r with
                    | [] => digit_val c
                    | _ => digit_val c * 255 + decimal_value r
                    end
   | [] => 0
   end)%Z.

(** Lines beginning with ['t'] or ['r']. *)
Definition count_tr (lines : list string) : nat := List.length (filter starts_tr lines).

(** Delay sample groups, generic in the record test [q]: one group per
    record satisfying [q] whose unique id no earlier record satisfying [q]
    carried; a group is one sample per TX record with that unique id. *)
Fixpoint delay_groups (q : trace_row -> bool) (T : TRACE) (rows earlier : TRACE) : list Q :=
  match rows with
  | [] => []
  | r :: rows' =>
      (if q r && negb (existsb (fun e => q e && Z.eqb (UNIQUE_ID e) (UNIQUE_ID r)) earlier)
       then delay_samples T r else [])
      ++ delay_groups q T rows' (earlier ++ [r])
  end.

Definition dst_matches (r : trace_row) : bool :=
  match py_int (MAC_DST_ADDR r) with Ok z => Z.eqb z (NODE_ID r + 1) | Err _ => false end.

(** The claim's test: an RX record whose destination is its node id + 1. *)
Definition rx_delivery (r : trace_row) : bool := mode_eqb (MODE r) RX && dst_matches r.

(** The per-node energy fields, and their sum. *)
Definition node_energy (v : node_values) : Q := RX_ENERGY v + TX_ENERGY v + IDLE_ENERGY v.

Fixpoint energy_sum (d : NODE_INFO) : Q :=
  match d with [] => 0 | (_, v) :: d' => node_energy v + energy_sum d' end.

Definition node_le (v v' : node_values) : Prop :=
  RX_ENERGY v <= RX_ENERGY v' /\ TX_ENERGY v <= TX_ENERGY v' /\ IDLE_ENERGY v <= IDLE_ENERGY v'.

(** ** Concrete traces *)

Definition ev_tx : string :=
  "t 0 /NodeList/0/DeviceList PacketType=DATA Size=50 UniqueID=7 SA=001 DA=002".
Definition ev_rx : string :=
  "r 5000000000 /NodeList/1/DeviceList PacketType=DATA Size=50 UniqueID=7 SA=001 DestAddress=002".

Definition ev_tx_uid : string := "t 0 /NodeList/0/DeviceList Size=50 UniqueID=7 DA=002".
Definition ev_tx_no_uid : string := "t 1000 /NodeList/3/DeviceList Size=50 DA=005".

Definition ev_rx_node301 : string := "r 0 /NodeList/301/DeviceList Size=50 UniqueID=1".

Definition ev_tx_negative_size : string := "t 0 /NodeList/0/DeviceList Size=-8 UniqueID=1".

Definition mac_dst_parses (r : trace_row) : bool :=
  match py_int (MAC_DST_ADDR r) with Ok _ => true | Err _ => false end.

Definition ev_tx_self_addressed : string := "t 0 /NodeList/0/DeviceList Size=50 UniqueID=1 DA=1".

(** ** Auxiliary notions for the properties of the code *)

(** The mode an event string gets in [parse_fields] ([None]: skipped). *)
Definition line_mode (line : string) : option mode :=
  match line with
  | String c _ => if Ascii.eqb c "t" then Some TX else if Ascii.eqb c "r" then Some RX else None
  | EmptyString => None
  end.

Definition upd (m : mode) : node_values -> Q -> Z -> node_values * Z :=
  match m with TX => tx_update | RX => rx_update end.

(** The events that become records, with their modes, in order. *)
Definition mode_events (EVENTS : list string) : list (string * mode) :=
  flat_map (fun e => match line_mode e with Some m => [(e, m)] | None => [] end) EVENTS.

Fixpoint field_total (f : node_values -> Z) (d : NODE_INFO) : Z :=
  match d with [] => 0%Z | (_, v) :: d' => (f v + field_total f d')%Z end.

Definition count_rows (p : trace_row -> bool) (T : TRACE) : Z :=
  Z.of_nat (List.length (filter p T)).

Definition is_bad (r : trace_row) : bool := Z.eqb (bad r) 1.
Definition is_rx_nocol (r : trace_row) : bool := mode_eqb (MODE r) RX && Z.eqb (bad r) 0.

(** Running means: entry [n] is the mean of the first [n + 1] values. *)
Definition sumQ (l : list Q) : Q := fold_right Qplus 0 l.

Definition thr_inv (s : thr_state) : Prop :=
  List.length (timestamps s) = List.length (throughputs s) /\
  List.length (moving_average s) = List.length (throughputs s) /\
  k s = (Z.of_nat (List.length (throughputs s)) + 1)%Z /\
  previous_average s * inject_Z (Z.of_nat (List.length (throughputs s))) == sumQ (throughputs s) /\
  (forall n, (n < List.length (throughputs s))%nat ->
     nth n (moving_average s) 0 * inject_Z (Z.of_nat n + 1) == sumQ (firstn (S n) (throughputs s))) /\
  (0 <= num_recv_packets s)%Z /\
  Forall (fun x => 0 <= x) (throughputs s) /\
  (timestamps s <> [] -> last (timestamps s) 0 == start_ts s / 1000000000) /\
  (forall n, (S n < List.length (timestamps s))%nat ->
     nth n (timestamps s) 0 + 10 <= nth (S n) (timestamps s) 0).

Definition ev_rx_at (ts uid : string) : string :=
  "r " ++ ts ++ " /NodeList/1/DeviceList PacketType=DATA Size=50 UniqueID=" ++ uid ++
  " SA=001 DestAddress=002".

Definition thr_events : list string :=
  [ev_rx_at "5000000000" "7"; ev_rx_at "20000000000" "8"; ev_rx_at "25000000000" "9";
   ev_rx_at "40000000000" "10"].

Definition row_key (r : csv_row) : Z * Q * Z := (row_n_nodes r, row_lambda r, row_repeat r).

Definition batch_keys (combos : list (Z * Q)) (repeats : list Z) : list (Z * Q * Z) :=
  flat_map (fun '(n, l) => map (fun rep => (n, l, rep)) repeats) combos.

(** * Proofs *)

(** ** Characters *)

Lemma digit_not_space c : is_digit c = true -> is_space c = false.
Proof.
  unfold is_digit, is_space. intros H.
  apply andb_true_iff in H as [H1 H2]. apply Nat.leb_le in H1, H2.
  destruct (9 <=? nat_of_ascii c)%nat eqn:E1, (nat_of_ascii c <=? 13)%nat eqn:E2,
           (28 <=? nat_of_ascii c)%nat eqn:E3, (nat_of_ascii c <=? 32)%nat eqn:E4;
    simpl; try reflexivity;
    repeat match goal with H : (_ <=? _)%nat = true |- _ => apply Nat.leb_le in H end;
    lia.
Qed.

Lemma digit_neq c d : is_digit c = true -> is_digit d = false -> Ascii.eqb c d = false.
Proof.
  intros H1 H2. destruct (Ascii.eqb_spec c d); [subst; congruence | reflexivity].
Qed.

Lemma lstrip_digits l : forallb is_digit l = true -> lstrip l = l.
Proof.
  destruct l as [|c r]; simpl; [reflexivity|].
  intros H. apply andb_true_iff in H as [H _]. now rewrite digit_not_space.
Qed.

Lemma strip_digits l : forallb is_digit l = true -> strip l = l.
Proof.
  intros H. unfold strip. rewrite (lstrip_digits l H).
  rewrite lstrip_digits; [apply rev_involutive|].
  apply forallb_forall. intros x Hx. apply in_rev in Hx.
  exact (proj1 (forallb_forall _ _) H x Hx).
Qed.

Lemma digitpart_digits l acc :
  forallb is_digit l = true -> digitpart false l acc = Some (fold_left (fun a c => 10 * a + digit_val c)%Z l acc).
Proof.
  revert acc; induction l as [|c r IH]; intros acc H; simpl in *; [reflexivity|].
  apply andb_true_iff in H as [H1 H2]. rewrite H1. now apply IH.
Qed.

Lemma py_int_digits s :
  s <> EmptyString -> forallb is_digit (chars s) = true -> py_int s = Ok (decimal_value (chars s)).
Proof.
  intros Hne H. unfold py_int. rewrite (strip_digits _ H).
  destruct (chars s) as [|c r] eqn:Ec.
  - destruct s; [congruence | discriminate].
  - simpl in H. apply andb_true_iff in H as [H1 H2].
    rewrite (digit_neq c "-") by (exact H1 || reflexivity).
    rewrite (digit_neq c "+") by (exact H1 || reflexivity).
    simpl. rewrite H1. rewrite digitpart_digits by exact H2. reflexivity.
Qed.

(** ** AddressDecoder *)

(** Claim C8: [convert_string_to_int] faults (ValueError) exactly when the
    length is outside [1,4] or some character is not a digit; otherwise
    it strips one leading zero, or returns [first_digit * 255 + rest]
    (the digit itself for one digit); it maps "0", "05", "100", "999" to
    0, 5, 255, 2394 and faults on "12a" and "". *)
Theorem convert_string_to_int_spec :
  (forall s, convert_string_to_int s =
             if valid_address s then Ok (address_spec s) else Err ValueError) /\
  convert_string_to_int "0" = Ok 0%Z /\ convert_string_to_int "05" = Ok 5%Z /\
  convert_string_to_int "100" = Ok 255%Z /\ convert_string_to_int "999" = Ok 2394%Z /\
  convert_string_to_int "12a" = Err ValueError /\ convert_string_to_int "" = Err ValueError.
Proof.
  split; [|repeat split; reflexivity].
  intros s. unfold convert_string_to_int, valid_address, address_spec, isdigit.
  destruct s as [|c rest]; [reflexivity|].
  change (chars (String c rest)) with (c :: chars rest).
  simpl String.length.
  destruct (4 <? S (String.length rest))%nat eqn:E4;
  destruct (S (String.length rest) <=? 4)%nat eqn:E4';
    try (apply Nat.ltb_lt in E4; apply Nat.leb_le in E4'; lia);
    try (apply Nat.ltb_ge in E4; apply Nat.leb_gt in E4'; lia);
    simpl; [reflexivity|].
  destruct (is_digit c && forallb is_digit (chars rest)) eqn:Hd; simpl; [|reflexivity].
  apply andb_true_iff in Hd as [Hc Hr].
  destruct (Ascii.eqb c "0") eqn:E0.
  - destruct rest as [|c' rest']; simpl; [reflexivity|].
    apply py_int_digits; [discriminate | exact Hr].
  - destruct rest as [|c' rest'].
    + simpl. rewrite py_int_digits by (discriminate || (simpl; rewrite Hc; reflexivity)).
      reflexivity.
    + simpl String.length.
      cbn [forallb chars list_ascii_of_string] in Hr.
      rewrite (py_int_digits (String c EmptyString))
        by (discriminate || (simpl; rewrite Hc; reflexivity)).
      simpl bind. rewrite (py_int_digits (String c' rest'))
        by (discriminate || (cbn [forallb chars list_ascii_of_string]; exact Hr)).
      reflexivity.
Qed.

(** ** EventSplitter *)

Lemma parse_events_loop_length lines event i EVENTS :
  i <> O ->
  List.length (parse_events_loop lines event i EVENTS) =
  (List.length EVENTS + 1 + count_tr lines)%nat.
Proof.
  unfold count_tr.
  revert event i EVENTS; induction lines as [|line rest IH]; intros event i EVENTS Hi; simpl.
  - rewrite length_app; simpl; lia.
  - destruct i as [|i']; [congruence|]. simpl.
    destruct (starts_tr line); simpl.
    + rewrite IH by discriminate. rewrite length_app; simpl; lia.
    + rewrite IH by discriminate. reflexivity.
Qed.

(** Claim C9 (as stated): the number of event strings equals the number of
    lines beginning with 't' or 'r'.  It fails on the empty input: there is
    no such line, and [parse_events] returns one (empty) event. *)
Lemma parse_events_count_counterexample :
  List.length (parse_events "") = 1%nat /\ count_tr (file_lines "") = 0%nat.
Proof. split; reflexivity. Qed.

(** Claim C9 (amended): the number of event strings is one more than the
    number of physical lines after the first that begin with 't' or 'r';
    the first line, whatever its first character, and the empty input each
    give one event. *)
Theorem parse_events_count text :
  List.length (parse_events text) = S (count_tr (tl (file_lines text))).
Proof.
  unfold parse_events. destruct (file_lines text) as [|line rest]; simpl; [reflexivity|].
  rewrite andb_false_r. rewrite parse_events_loop_length by discriminate. simpl. lia.
Qed.

(** ** NodeStateTracker *)

(** Claim C3: a TX event adds [air_time * (TX_POWER + IDLE_POWER)] to the
    node's [tx_energy] whether or not it collides; when [ts < busy_until]
    it is flagged ([bad] = 1), [collision_count] grows by exactly 1 and
    [busy_until], [idle_energy], [rx_energy], [processed_rx_count] are
    unchanged; so of two TX events at one node, the first accepted and the
    second starting inside the busy interval the first one sets, exactly
    one is flagged and [collision_count] grows by exactly 1. *)
Theorem tx_update_spec :
  (forall v ts p,
     TX_ENERGY (fst (tx_update v ts p)) == TX_ENERGY v + air_time p * (TX_POWER + IDLE_POWER) /\
     (ts < LAST_TS v ->
        snd (tx_update v ts p) = 1%Z /\
        COLLISION_COUNT (fst (tx_update v ts p)) = (COLLISION_COUNT v + 1)%Z /\
        LAST_TS (fst (tx_update v ts p)) = LAST_TS v /\
        IDLE_ENERGY (fst (tx_update v ts p)) = IDLE_ENERGY v /\
        RX_ENERGY (fst (tx_update v ts p)) = RX_ENERGY v /\
        PROCESSED_RX_COUNT (fst (tx_update v ts p)) = PROCESSED_RX_COUNT v)) /\
  (forall v ts1 p1 ts2 p2,
     LAST_TS v <= ts1 -> ts2 < ts1 + air_time p1 ->
     let '(v1, b1) := tx_update v ts1 p1 in
     let '(v2, b2) := tx_update v1 ts2 p2 in
     b1 = 0%Z /\ b2 = 1%Z /\ COLLISION_COUNT v2 = (COLLISION_COUNT v + 1)%Z).
Proof.
  split.
  - intros v ts p. unfold tx_update.
    destruct (Qle_bool (LAST_TS v) ts) eqn:E; simpl.
    + split; [ring|]. intros Hlt. apply Qle_bool_iff in E.
      exfalso. apply (Qlt_not_le _ _ Hlt E).
    + split; [ring|]. intros _. repeat split.
  - intros v ts1 p1 ts2 p2 H1 H2. unfold tx_update at 1.
    apply Qle_bool_iff in H1. rewrite H1. simpl.
    unfold tx_update. simpl.
    destruct (Qle_bool (ts1 + air_time p1) ts2) eqn:E.
    + apply Qle_bool_iff in E. exfalso. apply (Qlt_not_le _ _ H2 E).
    + repeat split.
Qed.

(** Claim C4: an RX event at [ts] is non-colliding exactly when
    [ts - air_time >= busy_until]; then [processed_rx_count] grows by 1,
    [idle_energy] by [(ts - busy_until) / 1e9 * IDLE_POWER], [busy_until]
    becomes [ts], [rx_energy] grows by [air_time * RX_POWER] and the flag
    is 0; otherwise only [collision_count] grows (by 1) and the flag is 1. *)
Theorem rx_update_spec v ts p :
  (snd (rx_update v ts p) = 0%Z <-> LAST_TS v <= ts - air_time p) /\
  (LAST_TS v <= ts - air_time p ->
     rx_update v ts p =
     ({| PROCESSED_RX_COUNT := PROCESSED_RX_COUNT v + 1;
         RX_ENERGY := RX_ENERGY v + air_time p * RX_POWER;
         TX_ENERGY := TX_ENERGY v;
         IDLE_ENERGY := IDLE_ENERGY v + ((ts - LAST_TS v) / 1000000000) * IDLE_POWER;
         COLLISION_COUNT := COLLISION_COUNT v;
         LAST_TS := ts |}, 0%Z)) /\
  (~ LAST_TS v <= ts - air_time p ->
     rx_update v ts p =
     ({| PROCESSED_RX_COUNT := PROCESSED_RX_COUNT v; RX_ENERGY := RX_ENERGY v;
         TX_ENERGY := TX_ENERGY v; IDLE_ENERGY := IDLE_ENERGY v;
         COLLISION_COUNT := COLLISION_COUNT v + 1; LAST_TS := LAST_TS v |}, 1%Z)).
Proof.
  unfold rx_update. destruct (Qle_bool (LAST_TS v) (ts - air_time p)) eqn:E.
  - apply Qle_bool_iff in E. simpl. repeat split; try tauto.
  - assert (Hn : ~ LAST_TS v <= ts - air_time p)
      by (intros H; apply Qle_bool_iff in H; congruence).
    simpl. repeat split; try tauto; try discriminate.
Qed.

Lemma tx_update_spec_witness :
  (LAST_TS NODE_VALUES <= 0 /\ 0 < 0 + air_time 50) /\
  (let '(v1, b1) := tx_update NODE_VALUES 0 50 in
   let '(v2, b2) := tx_update v1 0 50 in
   b1 = 0%Z /\ b2 = 1%Z /\ COLLISION_COUNT v2 = (COLLISION_COUNT NODE_VALUES + 1)%Z).
Proof.
  assert (H1 : LAST_TS NODE_VALUES <= 0) by (apply Qle_bool_iff; reflexivity).
  assert (H2 : 0 < 0 + air_time 50) by (apply Qlt_alt; reflexivity).
  split; [split; assumption|].
  exact (proj2 tx_update_spec NODE_VALUES 0 50%Z 0 50%Z H1 H2).
Defined.

Lemma rx_update_spec_witness :
  LAST_TS NODE_VALUES <= 5000000000 - air_time 50 /\
  rx_update NODE_VALUES 5000000000 50 =
  ({| PROCESSED_RX_COUNT := PROCESSED_RX_COUNT NODE_VALUES + 1;
      RX_ENERGY := RX_ENERGY NODE_VALUES + air_time 50 * RX_POWER;
      TX_ENERGY := TX_ENERGY NODE_VALUES;
      IDLE_ENERGY := IDLE_ENERGY NODE_VALUES
                     + ((5000000000 - LAST_TS NODE_VALUES) / 1000000000) * IDLE_POWER;
      COLLISION_COUNT := COLLISION_COUNT NODE_VALUES;
      LAST_TS := 5000000000 |}, 0%Z).
Proof.
  assert (H : LAST_TS NODE_VALUES <= 5000000000 - air_time 50)
    by (apply Qle_bool_iff; reflexivity).
  split; [exact H|].
  exact (proj1 (proj2 (rx_update_spec NODE_VALUES 5000000000 50%Z)) H).
Defined.

(** Claim C1 (code defect): [calc_sent_packets] counts every record of the
    table, RX ones included.  On the spec's synthetic trace (one TX at node
    0, one non-colliding RX at node 1 with the same unique id) it returns 2
    while [calc_tx_calls] returns 1, and [calc_pdr] is 1/2 instead of 1. *)
Theorem sent_packets_counts_rx_records :
  match parse_fields [ev_tx; ev_rx] with
  | Ok (T, _) => List.length T = 2%nat /\ calc_sent_packets T = 2%Z /\
                 calc_tx_calls T = 1%Z /\ calc_rx_calls T = 1%Z /\
                 calc_recv_packets T = Ok 1%Z /\ calc_pdr T = Ok (1 # 2)
  | Err _ => False
  end.
Proof. vm_compute. repeat split. Qed.

(** Claim C2 (code defect): an event without a [UniqueID] token does not
    abort the parse when an earlier event carried one: the record gets the
    earlier event's unique id. *)
Theorem missing_unique_id_reuses_stale :
  match parse_fields [ev_tx_uid; ev_tx_no_uid] with
  | Ok (T, _) => map UNIQUE_ID T = [7%Z; 7%Z]
  | Err _ => False
  end.
Proof. vm_compute. reflexivity. Qed.

(** Claim C6 (code defect): after an event at node 301 the map holds nodes
    0..299 and 301; [calc_rx_nocol_calls] reads [NODE_INFO[300]] and
    faults with a KeyError. *)
Theorem rx_nocol_calls_keyerror :
  match parse_fields [ev_rx_node301] with
  | Ok (_, NI) => List.length NI = 301%nat /\ dict_get 301 NI <> None /\
                  calc_rx_nocol_calls NI = Err KeyError
  | Err _ => False
  end.
Proof. vm_compute. split; [reflexivity|]. split; [discriminate|reflexivity]. Qed.

(** ** Energy accounting *)

Lemma Qle_add_nonneg x y : 0 <= y -> x <= x + y.
Proof. intros H. rewrite <- (Qplus_0_r x) at 1. apply Qplus_le_r. exact H. Qed.

Lemma air_time_nonneg p : (0 <= p)%Z -> 0 <= air_time p.
Proof.
  intros H. unfold air_time, Qdiv. apply Qmult_le_0_compat.
  - change 0 with (inject_Z 0). rewrite <- Zle_Qle. lia.
  - apply Qinv_le_0_compat. unfold LINK_SPEED. discriminate.
Qed.

Lemma idle_increment_nonneg a b : a <= b -> 0 <= (b - a) / 1000000000 * IDLE_POWER.
Proof.
  intros H. apply Qmult_le_0_compat; [|discriminate].
  unfold Qdiv. apply Qmult_le_0_compat; [|discriminate].
  unfold Qminus. apply Qle_minus_iff in H. exact H.
Qed.

Lemma tx_update_le v ts p : (0 <= p)%Z -> node_le v (fst (tx_update v ts p)).
Proof.
  intros Hp. pose proof (air_time_nonneg p Hp) as Ha.
  assert (Htx : TX_ENERGY v <= TX_ENERGY v + air_time p * TX_POWER + air_time p * IDLE_POWER).
  { eapply Qle_trans; apply Qle_add_nonneg; apply Qmult_le_0_compat; try exact Ha; discriminate. }
  unfold tx_update, node_le. destruct (Qle_bool (LAST_TS v) ts) eqn:E; simpl.
  - apply Qle_bool_iff in E. repeat split; [apply Qle_refl | exact Htx |].
    apply Qle_add_nonneg. apply idle_increment_nonneg. exact E.
  - repeat split; [apply Qle_refl | exact Htx | apply Qle_refl].
Qed.

Lemma rx_update_le v ts p : (0 <= p)%Z -> node_le v (fst (rx_update v ts p)).
Proof.
  intros Hp. pose proof (air_time_nonneg p Hp) as Ha.
  unfold rx_update, node_le. destruct (Qle_bool (LAST_TS v) (ts - air_time p)) eqn:E; simpl.
  - apply Qle_bool_iff in E. repeat split.
    + apply Qle_add_nonneg. apply Qmult_le_0_compat; [exact Ha | discriminate].
    + apply Qle_refl.
    + apply Qle_add_nonneg. apply idle_increment_nonneg.
      eapply Qle_trans; [exact E|]. unfold Qminus.
      rewrite <- (Qplus_0_r ts) at 2. apply Qplus_le_r.
      apply Qopp_le_compat in Ha. exact Ha.
  - repeat split; apply Qle_refl.
Qed.

Lemma node_le_energy v v' : node_le v v' -> node_energy v <= node_energy v'.
Proof.
  intros (H1 & H2 & H3). unfold node_energy.
  apply Qplus_le_compat; [apply Qplus_le_compat|]; assumption.
Qed.

Lemma energy_fold d acc :
  fold_left (fun total '(_, v) => total + RX_ENERGY v + TX_ENERGY v + IDLE_ENERGY v) d acc
  == acc + energy_sum d.
Proof.
  revert acc; induction d as [|[k v] d IH]; intros acc; simpl.
  - ring.
  - rewrite IH. unfold node_energy. ring.
Qed.

Lemma calc_energy_consumption_sum d : calc_energy_consumption d == energy_sum d.
Proof. unfold calc_energy_consumption. rewrite energy_fold. ring. Qed.

Lemma energy_sum_app d d' : energy_sum (d ++ d') == energy_sum d + energy_sum d'.
Proof.
  induction d as [|[k v] d IH]; simpl; [ring|]. rewrite IH. ring.
Qed.

Lemma energy_sum_ensure k d : energy_sum (ensure_node_exists k d) == energy_sum d.
Proof.
  unfold ensure_node_exists. destruct (dict_get k d); [reflexivity|].
  rewrite energy_sum_app. simpl. unfold node_energy. simpl. ring.
Qed.

Lemma energy_sum_set k v v' d :
  dict_get k d = Some v -> node_le v v' -> energy_sum d <= energy_sum (dict_set k v' d).
Proof.
  intros Hg Hle. induction d as [|[k0 v0] d IH]; simpl in *; [discriminate|].
  destruct (Z.eqb k k0); simpl.
  - injection Hg as <-. apply Qplus_le_l. apply node_le_energy. exact Hle.
  - apply Qplus_le_r. apply IH. exact Hg.
Qed.

Lemma dict_get_set k k0 v0 d :
  dict_get k (dict_set k0 v0 d) = if Z.eqb k k0 then Some v0 else dict_get k d.
Proof.
  induction d as [|[k1 v1] d IH]; simpl.
  - reflexivity.
  - destruct (Z.eqb_spec k0 k1) as [<-|Hne]; simpl.
    + destruct (Z.eqb k k0); reflexivity.
    + rewrite IH. destruct (Z.eqb_spec k k0), (Z.eqb_spec k k1); subst; congruence.
Qed.

Lemma dict_get_app_some k d d' v : dict_get k d = Some v -> dict_get k (d ++ d') = Some v.
Proof.
  induction d as [|[k1 v1] d IH]; simpl; [discriminate|].
  destruct (Z.eqb k k1); auto.
Qed.

Lemma dict_get_ensure k k0 d v :
  dict_get k d = Some v -> dict_get k (ensure_node_exists k0 d) = Some v.
Proof.
  unfold ensure_node_exists. destruct (dict_get k0 d); [auto|]. apply dict_get_app_some.
Qed.

Lemma node_le_refl v : node_le v v.
Proof. repeat split; apply Qle_refl. Qed.

(** What one iteration of [parse_fields] does to the node map: nothing,
    or the update of one node, the payload used being that of the new
    record. *)
Lemma parse_line_inv st line st' :
  parse_line st line = Ok st' ->
  st' = st \/
  exists k v ts p,
    dict_get k (ensure_node_exists k (st_nodes st)) = Some v /\
    (st_nodes st' = dict_set k (fst (tx_update v ts p)) (ensure_node_exists k (st_nodes st)) \/
     st_nodes st' = dict_set k (fst (rx_update v ts p)) (ensure_node_exists k (st_nodes st))) /\
    In p (map PAYLOAD_SIZE (st_trace st')).
Proof.
  unfold parse_line. intros H.
  destruct (first_char line) as [c|e]; simpl in H; [|discriminate].
  destruct (Ascii.eqb c "t" || Ascii.eqb c "r"); [|left; congruence].
  destruct (parse_ts _) as [ts|]; simpl in H; [|discriminate].
  destruct (parse_node_id _) as [k|]; simpl in H; [|discriminate].
  destruct (int_field line "Size" 50) as [p|]; simpl in H; [|discriminate].
  destruct (if Ascii.eqb c "t" then _ else _) as [tt|]; simpl in H; [|discriminate].
  destruct (int_field line "NumForwards" 0) as [nf|]; simpl in H; [|discriminate].
  destruct (parse_unique_id _ _) as [u|]; simpl in H; [|discriminate].
  unfold dict_lookup in H.
  destruct (dict_get k (ensure_node_exists k (st_nodes st))) as [v|] eqn:Eg;
    simpl in H; [|discriminate].
  right. exists k, v, ts, p. split; [exact Eg|].
  destruct (Ascii.eqb c "t").
  - destruct (tx_update v ts p) as [v' b] eqn:Eu. injection H as <-. simpl. split.
    + left. reflexivity.
    + rewrite map_app. apply in_or_app. right. left. reflexivity.
  - destruct (rx_update v ts p) as [v' b] eqn:Eu. injection H as <-. simpl. split.
    + right. reflexivity.
    + rewrite map_app. apply in_or_app. right. left. reflexivity.
Qed.

Lemma parse_line_energy st line st' :
  parse_line st line = Ok st' ->
  forallb (fun r => Z.leb 0 (PAYLOAD_SIZE r)) (st_trace st') = true ->
  (forall k v, dict_get k (st_nodes st) = Some v ->
     exists v', dict_get k (st_nodes st') = Some v' /\ node_le v v') /\
  energy_sum (st_nodes st) <= energy_sum (st_nodes st').
Proof.
  intros H Hpos. apply parse_line_inv in H as [->|(k0 & v0 & ts & p & Hg & Hn & Hin)].
  - split; [|apply Qle_refl]. intros k v Hk. exists v. split; [exact Hk | apply node_le_refl].
  - assert (Hp : (0 <= p)%Z).
    { apply in_map_iff in Hin as (r & <- & Hr).
      rewrite forallb_forall in Hpos. apply Z.leb_le. exact (Hpos r Hr). }
    assert (Hle : exists v', st_nodes st' = dict_set k0 v' (ensure_node_exists k0 (st_nodes st))
                             /\ node_le v0 v').
    { destruct Hn as [Hn|Hn]; eexists; split; try exact Hn.
      - apply tx_update_le. exact Hp.
      - apply rx_update_le. exact Hp. }
    destruct Hle as (v' & Hn' & Hle). rewrite Hn'. split.
    + intros k v Hk. rewrite dict_get_set.
      destruct (Z.eqb_spec k k0) as [->|Hne].
      * exists v'. split; [reflexivity|].
        rewrite (dict_get_ensure k0 k0 _ v Hk) in Hg. injection Hg as <-. exact Hle.
      * exists v. split; [apply dict_get_ensure; exact Hk | apply node_le_refl].
    + rewrite <- (energy_sum_ensure k0 (st_nodes st)).
      eapply energy_sum_set; [exact Hg | exact Hle].
Qed.

Lemma parse_lines_app st E e :
  parse_lines st (E ++ [e]) = (s <- parse_lines st E ;; parse_line s e).
Proof.
  revert st; induction E as [|line E IH]; intros st; simpl.
  - destruct (parse_line st e); reflexivity.
  - destruct (parse_line st line); simpl; [apply IH | reflexivity].
Qed.

(** Claim C7 (as stated): energy fields never decrease over any event.
    They do when a record's [Size] is negative: [int("-8")] is accepted
    and the TX energy added is negative. *)
Lemma energy_monotone_counterexample :
  match parse_fields [], parse_fields ([] ++ [ev_tx_negative_size]) with
  | Ok (_, NI), Ok (_, NI') =>
      option_map TX_ENERGY (dict_get 0 NI) = Some 0 /\
      match dict_get 0 NI' with Some v => TX_ENERGY v < 0 | None => False end /\
      calc_energy_consumption NI' < calc_energy_consumption NI
  | _, _ => False
  end.
Proof.
  vm_compute. split; [reflexivity|]. split; [reflexivity|]. reflexivity.
Qed.

(** Claim C7 (amended): when the records of the trace have non-negative
    payload sizes, appending one event to a successfully parsed trace
    decreases no node's [rx_energy], [tx_energy] or [idle_energy] (every
    node present before is still present), hence [energy_consumption] is
    non-decreasing. *)
Theorem energy_monotone_append E e T NI T' NI' :
  parse_fields E = Ok (T, NI) ->
  parse_fields (E ++ [e]) = Ok (T', NI') ->
  forallb (fun r => Z.leb 0 (PAYLOAD_SIZE r)) T' = true ->
  (forall k v, dict_get k NI = Some v ->
     exists v', dict_get k NI' = Some v' /\ node_le v v') /\
  calc_energy_consumption NI <= calc_energy_consumption NI'.
Proof.
  unfold parse_fields. rewrite parse_lines_app.
  destruct (parse_lines initial_state E) as [st|]; simpl; [|discriminate].
  intros H1. injection H1 as <- <-.
  destruct (parse_line st e) as [st'|] eqn:Hl; simpl; [|discriminate].
  intros H2. injection H2 as <- <-. intros Hpos.
  destruct (parse_line_energy st e st' Hl Hpos) as [Hn He]. split; [exact Hn|].
  rewrite !calc_energy_consumption_sum. exact He.
Qed.

Lemma energy_monotone_append_witness :
  match parse_fields [ev_tx], parse_fields ([ev_tx] ++ [ev_rx]) with
  | Ok (T, NI), Ok (T', NI') =>
      forallb (fun r => Z.leb 0 (PAYLOAD_SIZE r)) T' = true /\
      calc_energy_consumption NI <= calc_energy_consumption NI'
  | _, _ => False
  end.
Proof.
  destruct (parse_fields [ev_tx]) as [[T NI]|] eqn:E1; [|discriminate].
  destruct (parse_fields ([ev_tx] ++ [ev_rx])) as [[T' NI']|] eqn:E2;
    [|vm_compute in E2; discriminate].
  assert (Hpos : forallb (fun r => Z.leb 0 (PAYLOAD_SIZE r)) T' = true).
  { vm_compute in E2. injection E2 as <- _. reflexivity. }
  split; [exact Hpos|].
  exact (proj2 (energy_monotone_append [ev_tx] ev_rx T NI T' NI' E1 E2 Hpos)).
Defined.

(** ** Average delay *)

Lemma processed_ids_exists uid processed earlier :
  (forall u, In u processed <-> exists e, In e earlier /\ dst_matches e = true /\ UNIQUE_ID e = u) ->
  existsb (Z.eqb uid) processed =
  existsb (fun e => dst_matches e && Z.eqb (UNIQUE_ID e) uid) earlier.
Proof.
  intros Hinv.
  destruct (existsb (Z.eqb uid) processed) eqn:E1;
  destruct (existsb (fun e => dst_matches e && Z.eqb (UNIQUE_ID e) uid) earlier) eqn:E2;
    try reflexivity; exfalso.
  - apply existsb_exists in E1 as (u & Hu & Heq). apply Z.eqb_eq in Heq. subst u.
    apply Hinv in Hu as (e & He & Hd & Hid).
    assert (Hx : existsb (fun e => dst_matches e && Z.eqb (UNIQUE_ID e) uid) earlier = true).
    { apply existsb_exists. exists e. split; [exact He|]. rewrite Hd, Hid. apply Z.eqb_refl. }
    congruence.
  - apply existsb_exists in E2 as (e & He & Hb). apply andb_true_iff in Hb as [Hd Hid].
    apply Z.eqb_eq in Hid.
    assert (Hin : In uid processed) by (apply Hinv; exists e; auto).
    assert (Hx : existsb (Z.eqb uid) processed = true).
    { apply existsb_exists. exists uid. split; [exact Hin | apply Z.eqb_refl]. }
    congruence.
Qed.

Lemma delay_loop_groups T rows processed delays earlier :
  (forall u, In u processed <-> exists e, In e earlier /\ dst_matches e = true /\ UNIQUE_ID e = u) ->
  forallb mac_dst_parses rows = true ->
  delay_loop T rows processed delays = Ok (delays ++ delay_groups dst_matches T rows earlier).
Proof.
  revert processed delays earlier.
  induction rows as [|ri rows IH]; intros processed delays earlier Hinv Hparse; simpl.
  - rewrite app_nil_r. reflexivity.
  - simpl in Hparse. apply andb_true_iff in Hparse as [Hp Hrest].
    unfold mac_dst_parses in Hp.
    destruct (py_int (MAC_DST_ADDR ri)) as [d|] eqn:Ed; [|discriminate]. simpl.
    assert (Hdm : Z.eqb d (NODE_ID ri + 1) = dst_matches ri)
      by (unfold dst_matches; rewrite Ed; reflexivity).
    rewrite Hdm. rewrite (processed_ids_exists (UNIQUE_ID ri) processed earlier Hinv).
    destruct (dst_matches ri && negb (existsb _ earlier)) eqn:Hc.
    + rewrite (IH _ _ (earlier ++ [ri])); [rewrite app_assoc; reflexivity| |exact Hrest].
      apply andb_true_iff in Hc as [Hd _].
      intros u. rewrite in_app_iff, Hinv. split.
      * intros [(e & He & H1 & H2)|[<-|[]]].
        -- exists e. rewrite in_app_iff. auto.
        -- exists ri. rewrite in_app_iff. simpl. auto.
      * intros (e & He & H1 & H2). rewrite in_app_iff in He.
        destruct He as [He|[<-|[]]]; [left; exists e; auto | right; left; exact H2].
    + rewrite (IH _ _ (earlier ++ [ri])); [reflexivity| |exact Hrest].
      intros u. rewrite Hinv. split.
      * intros (e & He & H1 & H2). exists e. rewrite in_app_iff. auto.
      * intros (e & He & H1 & H2). rewrite in_app_iff in He.
        destruct He as [He|[<-|[]]]; [exists e; auto|].
        rewrite H1 in Hc. simpl in Hc. apply negb_false_iff in Hc.
        apply existsb_exists in Hc as (e' & He' & Hb).
        apply andb_true_iff in Hb as [Hd' Hid']. apply Z.eqb_eq in Hid'.
        exists e'. split; [exact He'|]. split; [exact Hd'|]. congruence.
Qed.

(** Claim C5 (as stated): only RX records start a sample group, so a
    trace with no RX record has no sample and a NaN average.  A TX record
    whose [mac_dst_addr] equals its node id + 1 also starts a group: the
    one-TX trace below has one sample (0 s). *)
Lemma calc_delay_counterexample :
  match parse_fields [ev_tx_self_addressed] with
  | Ok (T, _) => calc_delay T <> Ok (mean (delay_groups rx_delivery T T [])) /\
                 mean (delay_groups rx_delivery T T []) = None /\
                 match calc_delay T with Ok (Some d) => d == 0 | _ => False end
  | Err _ => False
  end.
Proof. vm_compute. split; [discriminate | split; reflexivity]. Qed.

(** Claim C5 (amended): when every [mac_dst_addr] parses as an integer,
    [calc_delay] is the mean ([None] = NaN when empty) of the samples
    [(rx_ts - tx_ts) / 1e9], one per TX record sharing the unique id, for
    the first record (of either mode) of each unique id whose
    [mac_dst_addr] equals its [node_id + 1]; and a TX at 0 ns with a
    matching RX at 5e9 ns gives 5 seconds. *)
Theorem calc_delay_spec :
  (forall T, forallb mac_dst_parses T = true ->
             calc_delay T = Ok (mean (delay_groups dst_matches T T []))) /\
  match parse_fields [ev_tx; ev_rx] with
  | Ok (T, _) => match calc_delay T with Ok (Some d) => d == 5 | _ => False end
  | Err _ => False
  end.
Proof.
  split.
  - intros T H. unfold calc_delay. rewrite (delay_loop_groups T T [] [] []); [reflexivity| |exact H].
    intros u. split; [intros []|intros (e & [] & _)].
  - vm_compute. reflexivity.
Qed.

Lemma calc_delay_spec_witness :
  match parse_fields [ev_tx; ev_rx] with
  | Ok (T, _) => forallb mac_dst_parses T = true /\
                 calc_delay T = Ok (mean (delay_groups dst_matches T T []))
  | Err _ => False
  end.
Proof.
  destruct (parse_fields [ev_tx; ev_rx]) as [[T NI]|] eqn:E; [|discriminate].
  assert (H : forallb mac_dst_parses T = true) by (vm_compute in E; injection E as <- _; reflexivity).
  split; [exact H | exact (proj1 calc_delay_spec T H)].
Defined.

(** ** Energy per bit and PDR *)

Lemma calc_sent_packets_length T : calc_sent_packets T = Z.of_nat (List.length T).
Proof.
  unfold calc_sent_packets.
  assert (H : forall l acc, fold_left (fun n (_ : trace_row) => (n + 1)%Z) l acc
                            = (acc + Z.of_nat (List.length l))%Z).
  { induction l as [|r l IH]; intros acc; simpl; [lia|]. rewrite IH. lia. }
  rewrite H. lia.
Qed.

(** Claim C10: [calc_energy_per_bit] returns 0 when [calc_recv_packets] is
    0 and [energy_consumption / (recv_packets * PACKET_SIZE * 8)]
    otherwise; [calc_pdr] faults with ZeroDivisionError when
    [calc_sent_packets] is 0 and returns [recv_packets / sent_packets]
    otherwise. *)
Theorem energy_per_bit_pdr_zero NI T :
  (calc_recv_packets T = Ok 0%Z -> calc_energy_per_bit NI T = Ok 0) /\
  (forall n, calc_recv_packets T = Ok n -> n <> 0%Z ->
     calc_energy_per_bit NI T =
     Ok (calc_energy_consumption NI / inject_Z (n * PACKET_SIZE * 8))) /\
  (calc_sent_packets T = 0%Z -> calc_pdr T = Err ZeroDivisionError) /\
  (forall n, calc_recv_packets T = Ok n -> calc_sent_packets T <> 0%Z ->
     calc_pdr T = Ok (inject_Z n / inject_Z (calc_sent_packets T))).
Proof.
  unfold calc_energy_per_bit, calc_pdr. repeat split.
  - intros H. rewrite H. reflexivity.
  - intros n H Hn. rewrite H. simpl. apply Z.eqb_neq in Hn. rewrite Hn. reflexivity.
  - intros H. rewrite calc_sent_packets_length in H.
    destruct T; [|simpl in H; lia]. reflexivity.
  - intros n H Hs. rewrite H. simpl. apply Z.eqb_neq in Hs. rewrite Hs. reflexivity.
Qed.

Lemma energy_per_bit_pdr_zero_witness :
  calc_energy_per_bit initial_NODE_INFO [] = Ok 0 /\ calc_pdr [] = Err ZeroDivisionError.
Proof.
  pose proof (energy_per_bit_pdr_zero initial_NODE_INFO []) as (H1 & _ & H3 & _).
  split; [apply H1 | apply H3]; reflexivity.
Defined.

(** ** Properties of the parser beyond the claims *)

(** One iteration of [parse_fields], in full: an event that becomes a
    record carries its line, its mode, and the node it updates. *)
Lemma parse_line_step st line st' :
  parse_line st line = Ok st' ->
  line <> EmptyString /\
  match line_mode line with
  | None => st' = st
  | Some m =>
      exists v row,
        dict_get (NODE_ID row) (ensure_node_exists (NODE_ID row) (st_nodes st)) = Some v /\
        st_trace st' = st_trace st ++ [row] /\
        MODE row = m /\ ORIGINAL_LINE row = line /\
        st_nodes st' = dict_set (NODE_ID row) (fst (upd m v (TS row) (PAYLOAD_SIZE row)))
                                (ensure_node_exists (NODE_ID row) (st_nodes st)) /\
        bad row = snd (upd m v (TS row) (PAYLOAD_SIZE row))
  end.
Proof.
  unfold parse_line. intros H.
  destruct line as [|c rest]; [discriminate|]. split; [discriminate|].
  simpl first_char in H. simpl bind in H. unfold line_mode.
  destruct (Ascii.eqb c "t") eqn:Et; simpl in H.
  2: destruct (Ascii.eqb c "r") eqn:Er; simpl in H; [|congruence].
  all: destruct (parse_ts _) as [ts|]; simpl in H; [|discriminate].
  all: destruct (parse_node_id _) as [k|]; simpl in H; [|discriminate].
  all: destruct (int_field _ "Size" 50) as [p|]; simpl in H; [|discriminate].
  all: try (destruct (parse_tx_time _) as [tt|]; simpl in H; [|discriminate]).
  all: destruct (int_field _ "NumForwards" 0) as [nf|]; simpl in H; [|discriminate].
  all: destruct (parse_unique_id _ _) as [u|]; simpl in H; [|discriminate].
  all: unfold dict_lookup in H.
  all: destruct (dict_get k (ensure_node_exists k (st_nodes st))) as [v|] eqn:Eg;
         simpl in H; [|discriminate].
  - destruct (tx_update v ts p) as [v' b] eqn:Eu. injection H as <-.
    eexists v, _. split; [|split; [simpl; reflexivity|]];
      [simpl; exact Eg | simpl; rewrite Eu; repeat split].
  - destruct (rx_update v ts p) as [v' b] eqn:Eu. injection H as <-.
    eexists v, _. split; [|split; [simpl; reflexivity|]];
      [simpl; exact Eg | simpl; rewrite Eu; repeat split].
Qed.

Lemma parse_lines_records st E st' :
  parse_lines st E = Ok st' ->
  map (fun r => (ORIGINAL_LINE r, MODE r)) (st_trace st') =
  map (fun r => (ORIGINAL_LINE r, MODE r)) (st_trace st) ++ mode_events E /\
  Forall (fun e => e <> EmptyString) E.
Proof.
  revert st; induction E as [|line E IH]; intros st H; simpl in H.
  - injection H as <-. rewrite app_nil_r. split; [reflexivity | constructor].
  - destruct (parse_line st line) as [s1|] eqn:Hl; simpl in H; [|discriminate].
    destruct (IH s1 H) as [Hm Hf].
    apply parse_line_step in Hl as [Hne Hl]. split; [|constructor; assumption].
    rewrite Hm. unfold mode_events at 2. simpl. fold (mode_events E).
    destruct (line_mode line) as [m|].
    + destruct Hl as (v & row & _ & Ht & Hmode & Hline & _).
      rewrite Ht, map_app. simpl. rewrite Hmode, Hline, <- app_assoc. reflexivity.
    + subst s1. reflexivity.
Qed.

(** Records and events: a successful parse produces one record per event
    starting with 't' or 'r', in event order, each carrying its event
    string and TX / RX mode; and no event string is empty (an empty one
    faults with IndexError, as the single event of an empty file does). *)
Theorem parse_fields_records E T NI :
  parse_fields E = Ok (T, NI) ->
  map (fun r => (ORIGINAL_LINE r, MODE r)) T = mode_events E /\
  Forall (fun e => e <> EmptyString) E.
Proof.
  unfold parse_fields. destruct (parse_lines initial_state E) as [st|] eqn:H; simpl; [|discriminate].
  intros Heq. injection Heq as <- <-. apply parse_lines_records in H. exact H.
Qed.

Lemma parse_fields_records_witness :
  match parse_fields [ev_tx; ev_rx] with
  | Ok (T, NI) => map (fun r => (ORIGINAL_LINE r, MODE r)) T = mode_events [ev_tx; ev_rx]
  | Err _ => False
  end.
Proof.
  destruct (parse_fields [ev_tx; ev_rx]) as [[T NI]|] eqn:E; [|discriminate].
  exact (proj1 (parse_fields_records _ _ _ E)).
Defined.


Lemma field_total_set f k v v' d :
  dict_get k d = Some v -> field_total f (dict_set k v' d) = (field_total f d - f v + f v')%Z.
Proof.
  induction d as [|[k0 v0] d IH]; simpl; [discriminate|].
  destruct (Z.eqb k k0); simpl.
  - intros H. injection H as <-. lia.
  - intros H. rewrite (IH H). lia.
Qed.

Lemma field_total_app f d d' : field_total f (d ++ d') = (field_total f d + field_total f d')%Z.
Proof. induction d as [|[k v] d IH]; simpl; [reflexivity|]. rewrite IH. lia. Qed.

Lemma field_total_ensure f k d :
  f NODE_VALUES = 0%Z -> field_total f (ensure_node_exists k d) = field_total f d.
Proof.
  intros H0. unfold ensure_node_exists. destruct (dict_get k d); [reflexivity|].
  rewrite field_total_app. simpl. lia.
Qed.

Lemma count_rows_snoc p T r :
  count_rows p (T ++ [r]) = (count_rows p T + if p r then 1 else 0)%Z.
Proof.
  unfold count_rows. rewrite filter_app, length_app. simpl.
  destruct (p r); simpl; lia.
Qed.

Lemma upd_counts m v ts p :
  let '(v', b) := upd m v ts p in
  (b = 0 \/ b = 1)%Z /\
  COLLISION_COUNT v' = (COLLISION_COUNT v + b)%Z /\
  PROCESSED_RX_COUNT v' =
    (PROCESSED_RX_COUNT v + match m with TX => 0 | RX => 1 - b end)%Z.
Proof.
  destruct m; simpl; [unfold tx_update | unfold rx_update];
    destruct (Qle_bool _ _); simpl; lia.
Qed.

(** The node-state totals as counts over the records. *)
Lemma parse_lines_totals st E st' :
  parse_lines st E = Ok st' ->
  field_total COLLISION_COUNT (st_nodes st) = count_rows is_bad (st_trace st) ->
  field_total PROCESSED_RX_COUNT (st_nodes st) = count_rows is_rx_nocol (st_trace st) ->
  field_total COLLISION_COUNT (st_nodes st') = count_rows is_bad (st_trace st') /\
  field_total PROCESSED_RX_COUNT (st_nodes st') = count_rows is_rx_nocol (st_trace st').
Proof.
  revert st; induction E as [|line E IH]; intros st H Hc Hp; simpl in H.
  - injection H as <-. auto.
  - destruct (parse_line st line) as [s1|] eqn:Hl; simpl in H; [|discriminate].
    apply (IH s1 H); apply parse_line_step in Hl as [_ Hl];
      (destruct (line_mode line) as [m|]; [|subst s1; assumption]);
      destruct Hl as (v & row & Hg & Ht & Hm & _ & Hn & Hb);
      pose proof (upd_counts m v (TS row) (PAYLOAD_SIZE row)) as Hu;
      destruct (upd m v (TS row) (PAYLOAD_SIZE row)) as [v' b]; simpl in Hb, Hn;
      destruct Hu as (Hb01 & Hcc & Hpc);
      rewrite Hn, Ht, count_rows_snoc, (field_total_set _ _ v) by exact Hg;
      rewrite (field_total_ensure _ _ _ eq_refl);
      unfold is_bad, is_rx_nocol in *; rewrite Hb, ?Hm.
    + rewrite Hcc. destruct Hb01 as [-> | ->]; simpl; lia.
    + rewrite Hpc. destruct m, Hb01 as [-> | ->]; simpl; lia.
Qed.

Lemma calc_total_collisions_total NI :
  calc_total_collisions NI = field_total COLLISION_COUNT NI.
Proof.
  unfold calc_total_collisions.
  assert (G : forall acc, fold_left (fun c '(_, v) => (c + COLLISION_COUNT v)%Z) NI acc
                          = (acc + field_total COLLISION_COUNT NI)%Z).
  { induction NI as [|[k v] NI IH]; intros acc; simpl; [lia|]. rewrite IH. lia. }
  rewrite G. lia.
Qed.

(** After parsing, [calc_total_collisions] equals the number of records
    flagged bad, and the per-node processed-RX counters sum to the number of
    non-colliding RX records. *)
Theorem parse_fields_collision_totals E T NI :
  parse_fields E = Ok (T, NI) ->
  calc_total_collisions NI = count_rows is_bad T /\
  field_total PROCESSED_RX_COUNT NI = count_rows is_rx_nocol T.
Proof.
  unfold parse_fields. intros H.
  destruct (parse_lines initial_state E) as [st|] eqn:Hp; simpl in H; [|discriminate].
  injection H as <- <-. rewrite calc_total_collisions_total.
  apply (parse_lines_totals _ _ _ Hp); reflexivity.
Qed.

Lemma parse_fields_collision_totals_witness :
  match parse_fields [ev_tx; ev_rx; ev_tx] with
  | Ok (T, NI) => calc_total_collisions NI = count_rows is_bad T /\
                  field_total PROCESSED_RX_COUNT NI = count_rows is_rx_nocol T
  | Err _ => False
  end.
Proof.
  destruct (parse_fields [ev_tx; ev_rx; ev_tx]) as [[T NI]|] eqn:E; [|discriminate].
  exact (parse_fields_collision_totals _ _ _ E).
Defined.


Lemma dict_get_in_keys k d : In k (map fst d) -> exists v, dict_get k d = Some v.
Proof.
  induction d as [|[k0 v0] d IH]; simpl; [tauto|].
  intros [<- | Hk].
  - rewrite Z.eqb_refl. eauto.
  - destruct (Z.eqb k k0); eauto.
Qed.

Lemma dict_set_keys k v d : map fst (dict_set k v d) = map fst d \/ dict_get k d = None.
Proof.
  induction d as [|[k0 v0] d IH]; simpl; [auto|].
  destruct (Z.eqb k k0) eqn:E; simpl; [left; reflexivity|].
  destruct IH as [-> | IH]; auto.
Qed.

Definition node_keys : list Z := map Z.of_nat (seq 0 300).







Lemma sumQ_app l l' : sumQ (l ++ l') == sumQ l + sumQ l'.
Proof.
  induction l as [|x l IH]; simpl; [ring|]. unfold sumQ in *. simpl. rewrite IH. ring.
Qed.

Lemma sumQ_snoc l x : sumQ (l ++ [x]) == sumQ l + x.
Proof. rewrite sumQ_app. unfold sumQ at 2. simpl. ring. Qed.

Lemma nat_succ_Q_nonzero n : ~ inject_Z (Z.of_nat n) + 1 == 0.
Proof. unfold Qeq. simpl. lia. Qed.

Lemma nth_snoc_last {A} (l : list A) x d : nth (List.length l) (l ++ [x]) d = x.
Proof. induction l; simpl; auto. Qed.

Lemma thr_step_inv s r s' : thr_step s r = Ok s' -> thr_inv s -> thr_inv s'.
Proof.
  unfold thr_step. intros H (Hts & Hma & Hk & Hprev & Hmean & Hnum & Hpos & Hlast & Hgap).
  destruct (py_int (MAC_DST_ADDR r)) as [d|]; simpl in H; [|discriminate].
  destruct (_ && _); [|injection H as <-; repeat split; assumption].
  destruct (negb (Qle_bool 10000000000 (TS r - start_ts s))) eqn:Hlt.
  - injection H as <-. unfold thr_inv; simpl. repeat split; try assumption. lia.
  - apply negb_false_iff, Qle_bool_iff in Hlt.
    unfold py_div in H.
    destruct (Qeq_bool ((TS r - start_ts s) / 1000000000) 0) eqn:Hz; simpl in H.
    { apply Qeq_bool_iff in Hz. exfalso.
      assert (0 < (TS r - start_ts s) / 1000000000).
      { apply Qlt_shift_div_l; [reflexivity|]. eapply Qlt_le_trans; [|exact Hlt]. reflexivity. }
      rewrite Hz in H0. discriminate. }
    destruct (Qeq_bool (inject_Z (k s)) 0) eqn:Hk0; simpl in H.
    { apply Qeq_bool_iff in Hk0. rewrite Hk in Hk0. unfold Qeq in Hk0. simpl in Hk0. lia. }
    injection H as <-. 
    set (n := List.length (throughputs s)) in *.
    set (c := inject_Z (num_recv_packets s * PACKET_SIZE * 8) / ((TS r - start_ts s) / 1000000000)).
    assert (Hkq : inject_Z (k s) == inject_Z (Z.of_nat n) + 1).
    { rewrite Hk, inject_Z_plus. reflexivity. }
    assert (Hkn : ~ inject_Z (k s) == 0).
    { intros E. apply Qeq_bool_iff in E. congruence. }
    unfold thr_inv; cbn [timestamps throughputs moving_average k previous_average
      num_recv_packets start_ts processed_ids]. rewrite !length_app. simpl List.length. fold n.
    repeat split.
    + lia.
    + lia.
    + lia.
    + rewrite sumQ_snoc, <- Hprev, Nat2Z.inj_add, inject_Z_plus, Hkq. simpl.
      field. apply nat_succ_Q_nonzero.
    + intros m Hm. destruct (Nat.eq_dec m n) as [-> | Hne].
      * rewrite <- Hma, nth_snoc_last, Hma. fold n.
        rewrite firstn_all2 by (rewrite length_app; simpl; lia).
        rewrite sumQ_snoc, <- Hprev, inject_Z_plus, Hkq. simpl.
        field. apply nat_succ_Q_nonzero.
      * rewrite app_nth1 by lia. rewrite firstn_app.
        replace (S m - List.length (throughputs s))%nat with 0%nat by (fold n; lia).
        rewrite app_nil_r. apply Hmean. lia.
    + lia.
    + apply Forall_app. split; [assumption|]. constructor; [|constructor].
      unfold c. apply Qle_shift_div_l.
      * apply Qlt_shift_div_l; [reflexivity|]. eapply Qlt_le_trans; [|exact Hlt]. reflexivity.
      * rewrite Qmult_0_l. unfold Qle. simpl. unfold PACKET_SIZE. lia.
    + intros _. rewrite last_last. reflexivity.
    + intros m Hm.
      destruct (Nat.eq_dec (S m) (List.length (timestamps s))) as [E | Hne].
      * rewrite E. rewrite nth_snoc_last.
        rewrite app_nth1 by lia.
        assert (Hne0 : timestamps s <> []) by (intros E0; rewrite E0 in E; discriminate).
        specialize (Hlast Hne0).
        assert (Hnl : nth m (timestamps s) 0 = last (timestamps s) 0).
        { destruct (exists_last Hne0) as (l & x & Hl). rewrite Hl in E |- *.
          rewrite length_app in E. simpl in E. rewrite app_nth2 by lia.
          replace (m - List.length l)%nat with 0%nat by lia. rewrite last_last. reflexivity. }
        rewrite Hnl, Hlast.
        apply (Qmult_le_r _ _ 1000000000); [reflexivity|].
        setoid_replace ((start_ts s / 1000000000 + 10) * 1000000000) with (start_ts s + 10000000000) by field.
        setoid_replace (TS r / 1000000000 * 1000000000) with (TS r) by field.
        apply (Qplus_le_l _ _ (- start_ts s)).
        setoid_replace (start_ts s + 10000000000 + - start_ts s) with (10000000000:Q) by ring.
        exact Hlt.
      * rewrite !app_nth1 by lia. apply Hgap. lia.
Qed.

Lemma py_int_err s e : py_int s = Err e -> e = ValueError.
Proof.
  unfold py_int. cbv zeta. intros H.
  match type of H with context [match ?r with Some _ => _ | None => _ end] => destruct r end;
    congruence.
Qed.

Lemma thr_step_err s r e : thr_inv s -> thr_step s r = Err e -> e = ValueError.
Proof.
  unfold thr_step. intros (_ & _ & Hk & _) H.
  destruct (py_int (MAC_DST_ADDR r)) as [d|e0] eqn:Hd; simpl in H.
  2:{ injection H as <-. exact (py_int_err _ _ Hd). }
  destruct (_ && _); [|discriminate].
  destruct (negb _) eqn:Hlt; [discriminate|].
  apply negb_false_iff, Qle_bool_iff in Hlt. unfold py_div in H.
  destruct (Qeq_bool ((TS r - start_ts s) / 1000000000) 0) eqn:Hz; simpl in H.
  { apply Qeq_bool_iff in Hz. exfalso.
    assert (0 < (TS r - start_ts s) / 1000000000).
    { apply Qlt_shift_div_l; [reflexivity|]. eapply Qlt_le_trans; [|exact Hlt]. reflexivity. }
    rewrite Hz in H0. discriminate. }
  destruct (Qeq_bool (inject_Z (k s)) 0) eqn:Hk0; simpl in H; [|discriminate].
  apply Qeq_bool_iff in Hk0. rewrite Hk in Hk0. unfold Qeq in Hk0. simpl in Hk0. lia.
Qed.

Lemma thr_loop_inv rows s s' : thr_loop s rows = Ok s' -> thr_inv s -> thr_inv s'.
Proof.
  revert s; induction rows as [|r rows IH]; intros s H Hi; simpl in H.
  - injection H as <-. exact Hi.
  - destruct (thr_step s r) as [s1|] eqn:E; simpl in H; [|discriminate].
    exact (IH s1 H (thr_step_inv _ _ _ E Hi)).
Qed.

Lemma thr_loop_err rows s e : thr_loop s rows = Err e -> thr_inv s -> e = ValueError.
Proof.
  revert s; induction rows as [|r rows IH]; intros s H Hi; simpl in H; [discriminate|].
  destruct (thr_step s r) as [s1|e1] eqn:E; simpl in H.
  - exact (IH s1 H (thr_step_inv _ _ _ E Hi)).
  - injection H as <-. exact (thr_step_err _ _ _ Hi E).
Qed.

Lemma first_start_props rows start n :
  first_start rows = Ok (start, n) -> (0 <= n)%Z.
Proof.
  induction rows as [|r rows IH]; simpl; [intros H; injection H as _ <-; lia|].
  destruct (py_int (MAC_DST_ADDR r)); simpl; [|discriminate].
  destruct (Z.eqb _ _); [intros H; injection H as _ <-; lia | exact IH].
Qed.

Lemma first_start_err rows e : first_start rows = Err e -> e = ValueError.
Proof.
  induction rows as [|r rows IH]; simpl; [discriminate|].
  destruct (py_int (MAC_DST_ADDR r)) as [d|e0] eqn:Hd; simpl.
  - destruct (Z.eqb _ _); [discriminate | exact IH].
  - intros H. injection H as <-. exact (py_int_err _ _ Hd).
Qed.

Lemma thr_initial_inv start n :
  (0 <= n)%Z ->
  thr_inv {| processed_ids := []; start_ts := start; num_recv_packets := n;
             timestamps := []; throughputs := []; moving_average := [];
             previous_average := 0; k := 1 |}.
Proof.
  intros Hn. unfold thr_inv; simpl.
  repeat split; intros; simpl in *; solve [lia | reflexivity | constructor | contradiction].
Qed.

Lemma calc_isntantaneous_throughput_inv T ts thr ma :
  calc_isntantaneous_throughput T = Ok (ts, thr, ma) ->
  exists s, thr_inv s /\ timestamps s = ts /\ throughputs s = thr /\ moving_average s = ma.
Proof.
  unfold calc_isntantaneous_throughput. intros H.
  destruct (first_start T) as [[start n]|] eqn:Hf; simpl in H; [|discriminate].
  destruct (thr_loop _ (tl T)) as [s|] eqn:Hl; simpl in H; [|discriminate].
  injection H as <- <- <-. exists s. split; [|auto].
  exact (thr_loop_inv _ _ _ Hl (thr_initial_inv _ _ (first_start_props _ _ _ Hf))).
Qed.

(** The only failure of [calc_isntantaneous_throughput] is the ValueError of
    [int(MAC_DST_ADDR)]: neither division ever faults. *)
Theorem instantaneous_throughput_only_valueerror T e :
  calc_isntantaneous_throughput T = Err e -> e = ValueError.
Proof.
  unfold calc_isntantaneous_throughput. intros H.
  destruct (first_start T) as [[start n]|e0] eqn:Hf; simpl in H.
  - destruct (thr_loop _ (tl T)) as [s|e1] eqn:Hl; simpl in H; [discriminate|].
    injection H as <-.
    exact (thr_loop_err _ _ _ Hl (thr_initial_inv _ _ (first_start_props _ _ _ Hf))).
  - injection H as <-. exact (first_start_err _ _ Hf).
Qed.

(** The moving average is the running mean of the throughputs, and the three
    returned lists have the same length. *)
Theorem instantaneous_throughput_running_mean T ts thr ma :
  calc_isntantaneous_throughput T = Ok (ts, thr, ma) ->
  List.length ts = List.length thr /\ List.length ma = List.length thr /\
  (forall n, (n < List.length thr)%nat ->
     nth n ma 0 * inject_Z (Z.of_nat n + 1) == sumQ (firstn (S n) thr)).
Proof.
  intros H. destruct (calc_isntantaneous_throughput_inv _ _ _ _ H)
    as (s & (Hts & Hma & _ & _ & Hmean & _) & <- & <- & <-).
  auto.
Qed.

(** The throughputs are non-negative and consecutive timestamps are at least
    10 seconds apart. *)
Theorem instantaneous_throughput_spacing T ts thr ma :
  calc_isntantaneous_throughput T = Ok (ts, thr, ma) ->
  Forall (fun x => 0 <= x) thr /\
  (forall n, (S n < List.length ts)%nat -> nth n ts 0 + 10 <= nth (S n) ts 0).
Proof.
  intros H. destruct (calc_isntantaneous_throughput_inv _ _ _ _ H)
    as (s & (_ & _ & _ & _ & _ & _ & Hpos & _ & Hgap) & <- & <- & <-).
  auto.
Qed.

Lemma instantaneous_throughput_running_mean_witness :
  match parse_fields thr_events with
  | Ok (T, _) =>
      match calc_isntantaneous_throughput T with
      | Ok (ts, thr, ma) =>
          List.length thr = 2%nat /\
          List.length ts = List.length thr /\ List.length ma = List.length thr /\
          (forall n, (n < List.length thr)%nat ->
             nth n ma 0 * inject_Z (Z.of_nat n + 1) == sumQ (firstn (S n) thr))
      | Err _ => False
      end
  | Err _ => False
  end.
Proof.
  destruct (parse_fields thr_events) as [[T NI]|] eqn:E; [|discriminate].
  destruct (calc_isntantaneous_throughput T) as [[[ts thr] ma]|] eqn:F.
  - split.
    + injection E as <- _. vm_compute in F. injection F as _ <- _. reflexivity.
    + exact (instantaneous_throughput_running_mean _ _ _ _ F).
  - injection E as <- _. discriminate.
Defined.

Lemma instantaneous_throughput_spacing_witness :
  match parse_fields thr_events with
  | Ok (T, _) =>
      match calc_isntantaneous_throughput T with
      | Ok (ts, thr, ma) =>
          List.length ts = 2%nat /\
          Forall (fun x => 0 <= x) thr /\
          (forall n, (S n < List.length ts)%nat -> nth n ts 0 + 10 <= nth (S n) ts 0)
      | Err _ => False
      end
  | Err _ => False
  end.
Proof.
  destruct (parse_fields thr_events) as [[T NI]|] eqn:E; [|discriminate].
  destruct (calc_isntantaneous_throughput T) as [[[ts thr] ma]|] eqn:F.
  - split.
    + injection E as <- _. vm_compute in F. injection F as <- _ _. reflexivity.
    + exact (instantaneous_throughput_spacing _ _ _ _ F).
  - injection E as <- _. discriminate.
Defined.

Lemma set_add_length u s : (List.length (set_add u s) <= S (List.length s))%nat.
Proof. unfold set_add. destruct (existsb _ _); [lia|]. rewrite length_app. simpl. lia. Qed.

Lemma count_rows_cons p r T :
  count_rows p (r :: T) = ((if p r then 1 else 0) + count_rows p T)%Z.
Proof. unfold count_rows. simpl. destruct (p r); simpl List.length; lia. Qed.

Lemma count_rows_le p T : (0 <= count_rows p T <= Z.of_nat (List.length T))%Z.
Proof.
  induction T as [|r T IH]; [unfold count_rows; simpl; lia|].
  rewrite count_rows_cons. simpl List.length. destruct (p r); lia.
Qed.

Lemma recv_loop_bound T s s' :
  recv_loop T s = Ok s' ->
  (Z.of_nat (List.length s') <= Z.of_nat (List.length s) + count_rows is_rx_nocol T)%Z.
Proof.
  revert s; induction T as [|r T IH]; intros s H; simpl in H.
  - injection H as <-. unfold count_rows. simpl. lia.
  - rewrite count_rows_cons. unfold is_rx_nocol at 1.
    destruct (mode_eqb (MODE r) RX && Z.eqb (bad r) 0).
    + destruct (dest_address (ORIGINAL_LINE r)).
      * destruct (convert_string_to_int s0) as [a|]; simpl in H; [|discriminate].
        specialize (IH _ H). destruct (Z.eqb a (NODE_ID r + 1)); [|lia].
        pose proof (set_add_length (UNIQUE_ID r) s). lia.
      * specialize (IH _ H). lia.
    + specialize (IH _ H). lia.
Qed.

Lemma calc_recv_packets_le T n :
  calc_recv_packets T = Ok n ->
  (0 <= n <= count_rows is_rx_nocol T)%Z /\ (count_rows is_rx_nocol T <= calc_sent_packets T)%Z.
Proof.
  unfold calc_recv_packets. intros H.
  destruct (recv_loop T []) as [s|] eqn:E; simpl in H; [|discriminate].
  injection H as <-. pose proof (recv_loop_bound _ _ _ E). simpl in H.
  rewrite calc_sent_packets_length. pose proof (count_rows_le is_rx_nocol T). lia.
Qed.

(** [calc_recv_packets] counts at most one delivery per non-colliding RX
    record, so never more than [calc_sent_packets]. *)
Theorem recv_packets_bound T n :
  calc_recv_packets T = Ok n ->
  (0 <= n <= count_rows is_rx_nocol T)%Z /\ (count_rows is_rx_nocol T <= calc_sent_packets T)%Z.
Proof. exact (calc_recv_packets_le T n). Qed.

(** The packet delivery ratio is between 0 and 1. *)
Theorem pdr_bounds T p : calc_pdr T = Ok p -> 0 <= p <= 1.
Proof.
  unfold calc_pdr. intros H.
  destruct (calc_recv_packets T) as [n|] eqn:E; simpl in H; [|discriminate].
  destruct (Z.eqb (calc_sent_packets T) 0) eqn:Z0; [discriminate|].
  injection H as <-. apply calc_recv_packets_le in E as [Hn Hs]. apply Z.eqb_neq in Z0.
  assert (Hpos : 0 < inject_Z (calc_sent_packets T)).
  { unfold Qlt. simpl. lia. }
  split.
  - apply Qle_shift_div_l; [exact Hpos|]. rewrite Qmult_0_l. unfold Qle. simpl. lia.
  - apply Qle_shift_div_r; [exact Hpos|]. rewrite Qmult_1_l. unfold Qle. simpl. lia.
Qed.

Lemma recv_packets_bound_witness :
  match parse_fields [ev_tx; ev_rx] with
  | Ok (T, _) =>
      match calc_recv_packets T with
      | Ok n => n = 1%Z /\
                (0 <= n <= count_rows is_rx_nocol T)%Z /\
                (count_rows is_rx_nocol T <= calc_sent_packets T)%Z
      | Err _ => False
      end
  | Err _ => False
  end.
Proof.
  destruct (parse_fields [ev_tx; ev_rx]) as [[T NI]|] eqn:E; [|discriminate].
  destruct (calc_recv_packets T) as [n|] eqn:F.
  - split.
    + injection E as <- _. vm_compute in F. injection F as <-. reflexivity.
    + exact (recv_packets_bound _ _ F).
  - injection E as <- _. discriminate.
Defined.

Lemma pdr_bounds_witness :
  match parse_fields [ev_tx; ev_rx] with
  | Ok (T, _) =>
      match calc_pdr T with
      | Ok p => p == 1#2 /\ 0 <= p <= 1
      | Err _ => False
      end
  | Err _ => False
  end.
Proof.
  destruct (parse_fields [ev_tx; ev_rx]) as [[T NI]|] eqn:E; [|discriminate].
  destruct (calc_pdr T) as [p|] eqn:F.
  - split.
    + injection E as <- _. vm_compute in F. injection F as <-. reflexivity.
    + exact (pdr_bounds _ _ F).
  - injection E as <- _. discriminate.
Defined.




(** [detect_tx_conflicts] counts a subset of the RX records. *)
Theorem detect_tx_conflicts_le_rx_calls T :
  (0 <= detect_tx_conflicts T <= calc_rx_calls T)%Z.
Proof.
  unfold detect_tx_conflicts, calc_rx_calls, count_mode.
  assert (G : forall acc, (0 <= acc)%Z ->
    (0 <= fold_left (fun c r => if mode_eqb (MODE r) RX && String.eqb (ERROR r) "True"
                                then (c + 1)%Z else c) T acc <=
     acc + Z.of_nat (List.length (filter (fun r => mode_eqb (MODE r) RX) T)))%Z).
  { induction T as [|r T IH]; intros acc Ha; simpl; [lia|].
    destruct (mode_eqb (MODE r) RX); simpl.
    - destruct (String.eqb (ERROR r) "True"); simpl List.length;
        [specialize (IH (acc + 1)%Z) | specialize (IH acc)]; lia.
    - apply IH, Ha. }
  specialize (G 0%Z). lia.
Qed.

Section BatchProofs.

Variable f : nat -> Z -> Q -> Z -> bool * option Z * option Z.

Lemma repeat_loop_going sf n l reps c rows c' rows' :
  repeat_loop f sf n l reps c rows = Going c' rows' ->
  exists new, rows' = rows ++ new /\ map row_key new = map (fun rep => (n, l, rep)) reps /\
              c' = (c + List.length reps)%nat /\
              (sf = false -> Forall (fun r => row_metrics r <> None) new).
Proof.
  revert c rows; induction reps as [|rep reps IH]; intros c rows H; simpl in H.
  - injection H as <- <-. exists []. rewrite app_nil_r. repeat split; try lia; auto.
  - destruct (f (S c) n l rep) as [[[|] [rx|]] [tx|]];
      try (destruct sf; [|discriminate]);
      apply IH in H as (new & -> & Hk & Hc & Hs);
      (eexists; split; [rewrite <- app_assoc; reflexivity|]); simpl;
      (split; [rewrite Hk; reflexivity|]); (split; [lia|]);
      intros Hsf; try discriminate; constructor; auto; simpl; discriminate.
Qed.

Lemma repeat_loop_stopped sf n l reps c rows rows' :
  repeat_loop f sf n l reps c rows = Stopped rows' ->
  sf = false /\ exists new, rows' = rows ++ new /\ Forall (fun r => row_metrics r <> None) new.
Proof.
  revert c rows; induction reps as [|rep reps IH]; intros c rows H; simpl in H; [discriminate|].
  destruct (f (S c) n l rep) as [[[|] [rx|]] [tx|]].
  1: apply IH in H as (Hsf & new & -> & Hs); (split; [exact Hsf|]);
     (eexists; split; [rewrite <- app_assoc; reflexivity|]);
     constructor; auto; simpl; discriminate.
  all: destruct sf; [apply IH in H as [Hsf _]; discriminate|].
  all: injection H as <-; split; [reflexivity|]; exists []; rewrite app_nil_r; auto.
Qed.

Lemma combo_loop_going sf reps combos c rows c' rows' :
  combo_loop f sf reps combos c rows = Going c' rows' ->
  exists new, rows' = rows ++ new /\ map row_key new = batch_keys combos reps /\
              (sf = false -> Forall (fun r => row_metrics r <> None) new).
Proof.
  revert c rows; induction combos as [|[n l] combos IH]; intros c rows H; simpl in H.
  - injection H as <- <-. exists []. rewrite app_nil_r. auto.
  - destruct (repeat_loop f sf n l reps c rows) as [c1 rows1|] eqn:E; [|discriminate].
    apply repeat_loop_going in E as (new1 & -> & Hk1 & _ & Hs1).
    apply IH in H as (new2 & -> & Hk2 & Hs2).
    exists (new1 ++ new2). split; [symmetry; apply app_assoc|]. split.
    + rewrite map_app, Hk1, Hk2. reflexivity.
    + intros Hsf. apply Forall_app. auto.
Qed.

Lemma combo_loop_stopped sf reps combos c rows rows' :
  combo_loop f sf reps combos c rows = Stopped rows' ->
  sf = false /\ exists new, rows' = rows ++ new /\ Forall (fun r => row_metrics r <> None) new.
Proof.
  revert c rows; induction combos as [|[n l] combos IH]; intros c rows H; simpl in H;
    [discriminate|].
  destruct (repeat_loop f sf n l reps c rows) as [c1 rows1|rows1] eqn:E.
  - apply repeat_loop_going in E as (new1 & -> & _ & _ & Hs1).
    apply IH in H as (Hsf & new2 & -> & Hs2). split; [exact Hsf|].
    exists (new1 ++ new2). split; [symmetry; apply app_assoc|]. apply Forall_app. auto.
  - injection H as <-. exact (repeat_loop_stopped _ _ _ _ _ _ _ E).
Qed.

End BatchProofs.

(** With [skip_failed], the batch always completes and writes one row for
    every (n_nodes, lambda, repeat) in the order of the nested loops,
    whatever the simulations return. *)
Theorem batch_skip_failed_complete f ns ls R :
  exists rows, run_batch_simulation f ns ls true R = (true, rows) /\
  map row_key rows = batch_keys (list_prod ns ls) (map Z.of_nat (seq 1 (Z.to_nat R))).
Proof.
  unfold run_batch_simulation.
  destruct (combo_loop f true _ _ 0 []) as [c rows|rows] eqn:E.
  - exists rows. split; [reflexivity|].
    apply combo_loop_going in E as (new & -> & Hk & _). exact Hk.
  - apply combo_loop_stopped in E as [H _]. discriminate.
Qed.

(** Without [skip_failed], every row written holds metrics, and a batch that
    reports success wrote every (n_nodes, lambda, repeat). *)
Theorem batch_no_skip_rows f ns ls R b rows :
  run_batch_simulation f ns ls false R = (b, rows) ->
  Forall (fun r => row_metrics r <> None) rows /\
  (b = true ->
   map row_key rows = batch_keys (list_prod ns ls) (map Z.of_nat (seq 1 (Z.to_nat R)))).
Proof.
  unfold run_batch_simulation.
  destruct (combo_loop f false _ _ 0 []) as [c rows'|rows'] eqn:E; intros H; injection H as <- <-.
  - apply combo_loop_going in E as (new & -> & Hk & Hs). auto.
  - apply combo_loop_stopped in E as (_ & new & -> & Hs). split; [exact Hs | discriminate].
Qed.

Lemma batch_no_skip_rows_witness :
  match run_batch_simulation
          (fun i _ _ _ => if Nat.eqb i 2 then (false, None, None) else (true, Some 1%Z, Some 2%Z))
          [5%Z] [1] false 3 with
  | (b, rows) =>
      b = false /\ List.length rows = 1%nat /\
      Forall (fun r => row_metrics r <> None) rows /\
      (b = true ->
       map row_key rows = batch_keys (list_prod [5%Z] [1]) (map Z.of_nat (seq 1 (Z.to_nat 3))))
  end.
Proof.
  destruct (run_batch_simulation _ _ _ _ _) as [b rows] eqn:E.
  split; [|split].
  - vm_compute in E. injection E as <- _. reflexivity.
  - vm_compute in E. injection E as _ <-. reflexivity.
  - exact (batch_no_skip_rows _ _ _ _ _ _ E).
Defined.

(** ** Metric extraction *)

Open Scope Z_scope.

Lemma take_while_ok ok s : forallb ok (chars (take_while ok s)) = true.
Proof.
  induction s as [|c s IH]; simpl; [reflexivity|].
  destruct (ok c) eqn:E; simpl; [rewrite E; exact IH | reflexivity].
Qed.

Lemma re_search_count_digits key s v :
  re_search_count key s = Some v -> v <> EmptyString /\ forallb is_digit (chars v) = true.
Proof.
  induction s as [|c s IH]; simpl;
  (destruct (strip_prefix key _) as [rest|];
   [destruct (take_while is_digit (skip_spaces rest)) as [|c0 v0] eqn:Et|]);
  try (intros H; injection H as <-; split; [discriminate|];
       rewrite <- Et; apply take_while_ok);
  try discriminate; exact IH.
Qed.

Lemma decimal_value_nonneg l : forallb is_digit l = true -> 0 <= decimal_value l.
Proof.
  unfold decimal_value.
  assert (G : forall acc, 0 <= acc -> forallb is_digit l = true ->
              0 <= fold_left (fun acc c => 10 * acc + digit_val c) l acc).
  { induction l as [|c l IH]; intros acc Ha H; cbn [fold_left forallb] in *; [exact Ha|].
    apply andb_prop in H as [Hc H]. apply IH; [|exact H].
    unfold is_digit in Hc. apply andb_prop in Hc as [H1 _]. apply Nat.leb_le in H1.
    unfold digit_val. lia. }
  intros H. apply G; [lia | exact H].
Qed.

Lemma int_of_match_count key s :
  exists z, int_of_match (re_search_count key s) = Ok z /\
            match z with
            | Some n => exists v, re_search_count key s = Some v /\
                                  n = decimal_value (chars v) /\ 0 <= n
            | None => re_search_count key s = None
            end.
Proof.
  destruct (re_search_count key s) as [v|] eqn:E; simpl.
  - destruct (re_search_count_digits _ _ _ E) as [Hne Hd].
    rewrite (py_int_digits _ Hne Hd). simpl. eexists. split; [reflexivity|].
    exists v. split; [reflexivity|]. split; [reflexivity|]. apply decimal_value_nonneg, Hd.
  - exists None. auto.
Qed.



Lemma string_app_assoc (a b c : string) : ((a ++ b) ++ c = a ++ b ++ c)%string.
Proof. induction a as [|x a IH]; simpl; [reflexivity|]. rewrite IH. reflexivity. Qed.

Lemma chars_app (a b : string) : chars (a ++ b) = (chars a ++ chars b)%list.
Proof. induction a as [|x a IH]; simpl; [reflexivity|]. unfold chars in *. simpl. rewrite IH. reflexivity. Qed.

Lemma strip_prefix_app key s : strip_prefix key (key ++ s) = Some s.
Proof. induction key as [|k key IH]; simpl; [reflexivity|]. rewrite Ascii.eqb_refl. exact IH. Qed.








Lemma instantaneous_throughput_only_valueerror_witness :
  match parse_fields ["t 0 /NodeList/0/DeviceList PacketType=DATA Size=50 UniqueID=7 SA=001 DA=x2"%string] with
  | Ok (T, _) =>
      match calc_isntantaneous_throughput T with
      | Err e => e = ValueError
      | Ok _ => False
      end
  | Err _ => False
  end.
Proof.
  destruct (parse_fields _) as [[T NI]|] eqn:E; [|discriminate].
  destruct (calc_isntantaneous_throughput T) as [x|e] eqn:F.
  - injection E as <- _. discriminate.
  - exact (instantaneous_throughput_only_valueerror _ _ F).
Defined.

(** ** Address decoding *)

Lemma chars_length s : List.length (chars s) = String.length s.
Proof. induction s as [|c s IH]; simpl; [reflexivity|]. unfold chars in *. simpl. rewrite IH. reflexivity. Qed.

Lemma digit_val_range c : is_digit c = true -> 0 <= digit_val c <= 9.
Proof.
  unfold is_digit, digit_val. intros H. apply andb_prop in H as [H1 H2].
  apply Nat.leb_le in H1. apply Nat.leb_le in H2. lia.
Qed.

Lemma decimal_value_lt l :
  forallb is_digit l = true -> 0 <= decimal_value l < 10 ^ Z.of_nat (List.length l).
Proof.
  unfold decimal_value.
  assert (G : forall acc, 0 <= acc -> forallb is_digit l = true ->
     0 <= fold_left (fun acc c => 10 * acc + digit_val c) l acc < (acc + 1) * 10 ^ Z.of_nat (List.length l)).
  { induction l as [|c l IH]; intros acc Ha H; cbn [fold_left forallb List.length] in *.
    - simpl. lia.
    - apply andb_prop in H as [Hc H]. pose proof (digit_val_range c Hc).
      specialize (IH (10 * acc + digit_val c) ltac:(lia) H).
      rewrite Nat2Z.inj_succ, Z.pow_succ_r by lia.
      assert (0 < 10 ^ Z.of_nat (List.length l)) by (apply Z.pow_pos_nonneg; lia).
      nia. }
  intros H. specialize (G 0 ltac:(lia) H). lia.
Qed.

(** A successful [convert_string_to_int] returns an address in [0, 3294]:
    at most [9 * 255 + 999]. *)
Theorem convert_string_to_int_range s z :
  convert_string_to_int s = Ok z -> 0 <= z <= 3294.
Proof.
  unfold convert_string_to_int. intros H.
  destruct ((String.length s <? 1)%nat || (4 <? String.length s)%nat) eqn:Hl; [discriminate|].
  apply orb_false_iff in Hl as [_ Hl]. apply Nat.ltb_ge in Hl.
  destruct (isdigit s) eqn:Hd; simpl in H; [|discriminate].
  destruct s as [|c rest]; [discriminate|].
  unfold isdigit in Hd. unfold chars in Hd. simpl in Hd. fold (chars rest) in Hd.
  apply andb_prop in Hd as [Hc Hr].
  simpl String.length in Hl, H.
  pose proof (decimal_value_lt _ Hr) as Hv. rewrite chars_length in Hv.
  assert (Hp : Z.of_nat (String.length rest) <= 3) by lia.
  assert (H1000 : 10 ^ Z.of_nat (String.length rest) <= 1000).
  { change 1000 with (10 ^ 3). apply Z.pow_le_mono_r; lia. }
  pose proof (digit_val_range c Hc) as Hcv.
  destruct (Ascii.eqb c "0").
  - destruct (1 <? S (String.length rest))%nat eqn:E1.
    + apply Nat.ltb_lt in E1.
      assert (Hne : rest <> EmptyString) by (intros ->; simpl in E1; lia).
      rewrite (py_int_digits _ Hne Hr) in H. injection H as <-. lia.
    + injection H as <-. lia.
  - destruct (S (String.length rest) =? 1)%nat eqn:E1.
    + apply Nat.eqb_eq in E1. destruct rest; [|simpl in E1; lia].
      rewrite py_int_digits in H by (discriminate || (simpl; rewrite Hc; reflexivity)).
      injection H as <-. unfold decimal_value. simpl. lia.
    + apply Nat.eqb_neq in E1.
      rewrite py_int_digits in H by (discriminate || (simpl; rewrite Hc; reflexivity)).
      simpl in H.
      assert (Hne : rest <> EmptyString) by (intros ->; simpl in E1; lia).
      rewrite (py_int_digits _ Hne Hr) in H. injection H as <-. 
      replace (decimal_value [c]) with (digit_val c) by reflexivity. lia.
Qed.

Lemma convert_string_to_int_range_witness :
  convert_string_to_int "9999" = Ok 3294 /\ 0 <= 3294 <= 3294.
Proof.
  split; [reflexivity|]. apply (convert_string_to_int_range "9999"). reflexivity.
Defined.

(** ** Field values *)

Lemma re_search_some key ok s v :
  re_search key ok s = Some v -> v <> EmptyString /\ forallb ok (chars v) = true.
Proof.
  induction s as [|c s IH]; simpl;
  (destruct (strip_prefix key _) as [rest|];
   [destruct (take_while ok rest) as [|c0 v0] eqn:Et|]);
  try (intros H; injection H as <-; split; [discriminate|];
       rewrite <- Et; apply take_while_ok);
  try discriminate; exact IH.
Qed.

Lemma forallb_removelast {A} (p : A -> bool) l :
  forallb p l = true -> forallb p (removelast l) = true.
Proof.
  induction l as [|x l IH]; simpl; [reflexivity|]. intros H. apply andb_prop in H as [Hx H].
  destruct l; [reflexivity|]. simpl. rewrite Hx. exact (IH H).
Qed.

Lemma chars_string_of_list l : chars (string_of_list_ascii l) = l.
Proof. unfold chars. apply list_ascii_of_string_of_list_ascii. Qed.

(** A value returned by [parse_field_value] never contains [')'] or
    whitespace: it is the matched [[^)\s]+] run, minus at most one final
    comma. *)
Theorem parse_field_value_chars line name v :
  parse_field_value line name = Some v -> forallb value_char (chars v) = true.
Proof.
  unfold parse_field_value.
  destruct (re_search (name ++ "=") value_char line) as [m|] eqn:E; [|discriminate].
  intros H. injection H as <-. apply re_search_some in E as [_ Hm].
  destruct (ends_with_comma m); [|exact Hm].
  unfold drop_last. rewrite chars_string_of_list. apply forallb_removelast, Hm.
Qed.

Lemma parse_field_value_chars_witness :
  parse_field_value ev_rx "DestAddress" = Some "002"%string /\
  forallb value_char (chars "002") = true.
Proof.
  split; [reflexivity|]. apply (parse_field_value_chars ev_rx "DestAddress"). reflexivity.
Defined.

Lemma re_search_skip k key ok s1 s2 :
  forallb (fun c => negb (Ascii.eqb k c)) (chars s1) = true ->
  re_search (String k key) ok (s1 ++ s2) = re_search (String k key) ok s2.
Proof.
  induction s1 as [|c s1 IH]; simpl; intros H; [reflexivity|].
  apply andb_prop in H as [Hc H]. apply negb_true_iff in Hc. rewrite Hc. exact (IH H).
Qed.

Lemma take_while_app ok v rest :
  forallb ok (chars v) = true ->
  match rest with String c _ => ok c = false | EmptyString => True end ->
  take_while ok (v ++ rest) = v.
Proof.
  induction v as [|c v IH]; simpl; intros Hv Hr.
  - destruct rest as [|c rest]; [reflexivity|]. simpl. rewrite Hr. reflexivity.
  - apply andb_prop in Hv as [Hc Hv]. rewrite Hc, (IH Hv Hr). reflexivity.
Qed.

Lemma re_search_at key ok v rest :
  v <> EmptyString -> forallb ok (chars v) = true ->
  match rest with String c _ => ok c = false | EmptyString => True end ->
  re_search key ok (key ++ v ++ rest) = Some v.
Proof.
  intros Hne Hv Hr.
  assert (Hu : re_search key ok (key ++ v ++ rest) =
    match match strip_prefix key (key ++ v ++ rest) with
          | Some r => match take_while ok r with EmptyString => None | w => Some w end
          | None => None
          end with
    | Some w => Some w
    | None => match (key ++ v ++ rest)%string with
              | EmptyString => None
              | String _ s' => re_search key ok s'
              end
    end) by (destruct (key ++ v ++ rest)%string; reflexivity).
  rewrite Hu, strip_prefix_app, (take_while_app _ _ _ Hv Hr).
  destruct v; [congruence | reflexivity].
Qed.

(** [parse_field_value] finds a field written [name=value]: the value is
    read back whole when it is a non-empty run without [')'] or whitespace,
    not ending in a comma, and followed by the end of the line, [')'] or
    whitespace (and no earlier character of the line starts [name]). *)
Theorem parse_field_value_round_trip pre k name v rest :
  forallb (fun c => negb (Ascii.eqb k c)) (chars pre) = true ->
  v <> EmptyString -> forallb value_char (chars v) = true -> ends_with_comma v = false ->
  match rest with String c _ => value_char c = false | EmptyString => True end ->
  parse_field_value (pre ++ String k name ++ "=" ++ v ++ rest) (String k name) = Some v.
Proof.
  intros Hpre Hne Hv Hc Hr. unfold parse_field_value.
  replace (pre ++ String k name ++ "=" ++ v ++ rest)%string
    with (pre ++ (String k name ++ "=") ++ v ++ rest)%string
    by (rewrite string_app_assoc; reflexivity).
  replace (String k name ++ "=")%string with (String k (name ++ "=")) by reflexivity.
  rewrite re_search_skip by exact Hpre.
  rewrite (re_search_at _ _ _ _ Hne Hv Hr), Hc. reflexivity.
Qed.

Lemma parse_field_value_round_trip_witness :
  parse_field_value ("t 0 /NodeList/0/DeviceList " ++ String "S" "ize" ++ "=" ++ "50" ++ " UniqueID=7")
    (String "S" "ize") = Some "50"%string.
Proof.
  apply parse_field_value_round_trip; (reflexivity || discriminate).
Defined.

(** ** Event grouping *)

Lemma parse_events_loop_concat lines event i E :
  List.concat (map chars (parse_events_loop lines event i E)) =
  (List.concat (map chars E) ++ chars event ++ List.concat (map (fun l => chars (drop_last l)) lines))%list.
Proof.
  revert event i E; induction lines as [|line rest IH]; intros event i E; simpl.
  - rewrite map_app, concat_app. simpl. rewrite !app_nil_r. reflexivity.
  - destruct (starts_tr line && negb (Nat.eqb i 0)); rewrite IH.
    + rewrite map_app, concat_app. simpl. rewrite app_nil_r, <- !app_assoc. reflexivity.
    + rewrite chars_app, <- !app_assoc. reflexivity.
Qed.

(** [parse_events] only regroups the physical lines: the events, joined,
    are the lines joined after each lost its last character (the newline,
    or the last real character of a final line that has none). *)
Theorem parse_events_concat text :
  List.concat (map chars (parse_events text)) =
  List.concat (map (fun l => chars (drop_last l)) (file_lines text)).
Proof. unfold parse_events. rewrite parse_events_loop_concat. reflexivity. Qed.

(** ** Keys of the node map *)

Lemma dict_get_none_notin k d : dict_get k d = None -> ~ In k (map fst d).
Proof.
  intros H Hin. destruct (dict_get_in_keys _ _ Hin) as [v Hv]. congruence.
Qed.

Lemma dict_get_some_in k d v : dict_get k d = Some v -> In k (map fst d).
Proof.
  induction d as [|[k0 v0] d IH]; simpl; [discriminate|].
  destruct (Z.eqb_spec k k0) as [-> | _]; auto.
Qed.

Lemma ensure_keys k d :
  map fst (ensure_node_exists k d) =
  (map fst d ++ match dict_get k d with Some _ => [] | None => [k] end)%list.
Proof.
  unfold ensure_node_exists. destruct (dict_get k d).
  - rewrite app_nil_r. reflexivity.
  - rewrite map_app. reflexivity.
Qed.

Lemma parse_lines_node_keys st E st' :
  parse_lines st E = Ok st' ->
  NoDup (map fst (st_nodes st)) ->
  (exists extra, map fst (st_nodes st) = node_keys ++ extra)%list ->
  Forall (fun r => In (NODE_ID r) (map fst (st_nodes st))) (st_trace st) ->
  NoDup (map fst (st_nodes st')) /\
  (exists extra, map fst (st_nodes st') = node_keys ++ extra)%list /\
  Forall (fun r => In (NODE_ID r) (map fst (st_nodes st'))) (st_trace st').
Proof.
  revert st; induction E as [|line E IH]; intros st H Hnd Hpre Hin; simpl in H.
  - injection H as <-. auto.
  - destruct (parse_line st line) as [s1|] eqn:Hl; simpl in H; [|discriminate].
    apply (IH s1 H); apply parse_line_step in Hl as [_ Hl];
      (destruct (line_mode line) as [m|]; [|subst s1; assumption]);
      destruct Hl as (v & row & Hg & Ht & _ & _ & Hn & _);
      (assert (Hk : map fst (st_nodes s1) = map fst (ensure_node_exists (NODE_ID row) (st_nodes st))) by
        (rewrite Hn; destruct (dict_set_keys (NODE_ID row)
            (fst (upd m v (TS row) (PAYLOAD_SIZE row))) (ensure_node_exists (NODE_ID row) (st_nodes st)))
           as [E1 | E1]; [exact E1 | congruence]));
      rewrite Hk, ensure_keys.
    + destruct (dict_get (NODE_ID row) (st_nodes st)) eqn:E0; [rewrite app_nil_r; exact Hnd|].
      apply NoDup_app; [exact Hnd | repeat constructor; simpl; tauto |].
      intros x Hx [<- | []]. exact (dict_get_none_notin _ _ E0 Hx).
    + destruct Hpre as [extra Hx]. rewrite Hx, <- app_assoc. eexists. reflexivity.
    + rewrite Ht. apply Forall_app. split.
      * eapply Forall_impl; [|exact Hin]. intros r Hr. simpl. apply in_or_app. left. exact Hr.
      * constructor; [|constructor].
        destruct (dict_get (NODE_ID row) (st_nodes st)) eqn:E0.
        -- rewrite app_nil_r. exact (dict_get_some_in _ _ _ E0).
        -- apply in_or_app. right. left. reflexivity.
Qed.

(** The node map of a successful parse: its keys are distinct, start with
    the 300 initial keys 0..299 in order, and include every record's node
    id (a new node is appended on its first record). *)
Theorem parse_fields_node_keys E T NI :
  parse_fields E = Ok (T, NI) ->
  NoDup (map fst NI) /\ (exists extra, map fst NI = node_keys ++ extra)%list /\
  Forall (fun r => In (NODE_ID r) (map fst NI)) T.
Proof.
  unfold parse_fields. intros H.
  destruct (parse_lines initial_state E) as [st|] eqn:Hp; simpl in H; [|discriminate].
  injection H as <- <-.
  assert (Hk : map fst (st_nodes initial_state) = node_keys).
  { unfold node_keys. cbn [st_nodes initial_state]. unfold initial_NODE_INFO.
    rewrite map_map. reflexivity. }
  apply (parse_lines_node_keys _ _ _ Hp); rewrite ?Hk.
  - unfold node_keys. apply NoDup_map_inv with (f := Z.to_nat). rewrite map_map.
    rewrite (map_ext_in _ (fun x => x)) by (intros; apply Nat2Z.id).
    rewrite map_id. apply seq_NoDup.
  - exists []. rewrite app_nil_r. reflexivity.
  - constructor.
Qed.

Lemma parse_fields_node_keys_witness :
  match parse_fields [ev_tx; ev_rx_node301] with
  | Ok (T, NI) =>
      List.length NI = 301%nat /\
      NoDup (map fst NI) /\ (exists extra, map fst NI = node_keys ++ extra)%list /\
      Forall (fun r => In (NODE_ID r) (map fst NI)) T
  | Err _ => False
  end.
Proof.
  destruct (parse_fields [ev_tx; ev_rx_node301]) as [[T NI]|] eqn:E; [|discriminate].
  split.
  - injection E as _ <-. reflexivity.
  - exact (parse_fields_node_keys _ _ _ E).
Defined.

(** ** Event boundaries *)

Lemma split_lines_newline l cur :
  match rev l with [] => cur = [] | c :: _ => c = "010"%char end ->
  Forall (fun line => exists b, chars line = (b ++ ["010"%char])%list) (split_lines l cur).
Proof.
  revert cur; induction l as [|c r IH]; intros cur H.
  - simpl in *. subst cur. constructor.
  - simpl rev in H. simpl split_lines.
    destruct (rev r) as [|x rr] eqn:Er; simpl in H.
    + subst c. rewrite Ascii.eqb_refl. constructor.
      * exists (rev cur). rewrite chars_string_of_list. reflexivity.
      * apply IH; try rewrite Er; reflexivity.
    + destruct (Ascii.eqb c "010") eqn:Ec.
      * constructor.
        -- apply Ascii.eqb_eq in Ec. subst c.
           exists (rev cur). rewrite chars_string_of_list. reflexivity.
        -- apply IH; try rewrite Er; exact H.
      * apply IH; try rewrite Er; exact H.
Qed.

Lemma starts_tr_drop_last line b :
  starts_tr line = true -> chars line = (b ++ ["010"%char])%list -> starts_tr (drop_last line) = true.
Proof.
  destruct line as [|c rest]; [discriminate|]. intros Hs Hb.
  unfold drop_last. unfold chars in *. simpl in Hb |- *.
  destruct rest as [|c' rest'].
  - simpl in Hb. destruct b as [|x b]; simpl in Hb.
    + injection Hb as ->. discriminate.
    + injection Hb as _ Hb. destruct b; discriminate.
  - simpl. exact Hs.
Qed.

Lemma starts_tr_app a b : starts_tr a = true -> starts_tr (a ++ b) = true.
Proof. destruct a; [discriminate | exact (fun H => H)]. Qed.

Lemma parse_events_loop_starts lines event i E :
  Forall (fun line => exists b, chars line = (b ++ ["010"%char])%list) lines ->
  Forall (fun e => starts_tr e = true) (tl (E ++ [event])) ->
  Forall (fun e => starts_tr e = true) (tl (parse_events_loop lines event i E)).
Proof.
  revert event i E; induction lines as [|line rest IH]; intros event i E Hl HQ; simpl; [exact HQ|].
  inversion Hl as [|? ? [b Hb] Hl']; subst.
  destruct (starts_tr line && negb (Nat.eqb i 0)) eqn:Ec.
  - apply IH; [exact Hl'|]. apply andb_prop in Ec as [Hs _].
    destruct E as [|e0 E]; simpl in HQ |- *.
    + constructor; [exact (starts_tr_drop_last _ _ Hs Hb) | constructor].
    + simpl. apply Forall_app. split; [exact HQ|].
      constructor; [exact (starts_tr_drop_last _ _ Hs Hb) | constructor].
  - apply IH; [exact Hl'|].
    destruct E as [|e0 E]; simpl in HQ |- *; [constructor|].
    apply Forall_app in HQ as [HQ He]. apply Forall_app. split; [exact HQ|].
    inversion He as [|? ? He' _]; subst.
    constructor; [exact (starts_tr_app _ _ He') | constructor].
Qed.

(** For a file that is empty or ends with a newline, every event after the
    first begins with 't' or 'r'. *)
Theorem parse_events_starts text :
  match rev (chars text) with [] => True | c :: _ => c = "010"%char end ->
  Forall (fun e => starts_tr e = true) (tl (parse_events text)).
Proof.
  intros H. unfold parse_events. apply parse_events_loop_starts; [|constructor].
  apply split_lines_newline. destruct (rev (chars text)); [reflexivity | exact H].
Qed.

Lemma parse_events_starts_witness :
  let text := ("t 0 a" ++ String "010" ("+ b" ++ String "010" ("r 5 c" ++ String "010" "")))%string in
  List.length (parse_events text) = 2%nat /\
  Forall (fun e => starts_tr e = true) (tl (parse_events text)).
Proof.
  intros text. split; [reflexivity|]. apply parse_events_starts. reflexivity.
Defined.

Section SingleProofs.

Variable update_aloha_cc : nat -> Z -> Q -> bool.
Variable update_print_script : nat -> list Z -> list Q -> bool.
Variable run_ns3_simulation : nat -> option Z -> bool.
Variable run_print_script : nat -> bool -> bool -> bool * string.

Lemma extract_metrics_ok output_text :
  exists rx tx, extract_metrics_from_output output_text = Ok (rx, tx) /\
  (forall n, rx = Some n -> 0 <= n) /\ (forall n, tx = Some n -> 0 <= n).
Proof.
  unfold extract_metrics_from_output.
  destruct (int_of_match_count "RxPackets:" output_text) as (rx & Hrx & Prx).
  destruct (int_of_match_count "TxCount:" output_text) as (tx & Htx & Ptx).
  rewrite Hrx, Htx. simpl. exists rx, tx. split; [reflexivity|].
  split; intros n ->; [destruct Prx as (v & _ & _ & Hn) | destruct Ptx as (v & _ & _ & Hn)];
    exact Hn.
Qed.

Lemma single_skip_print call n l so ss seed :
  exists success, run_single_simulation update_aloha_cc update_print_script
    run_ns3_simulation run_print_script call n l so ss true seed = Ok (success, None, None).
Proof.
  unfold run_single_simulation.
  destruct (update_aloha_cc _ _ _), (update_print_script _ _ _), ss,
    (run_ns3_simulation _ _); simpl; eexists; reflexivity.
Qed.

(** [run_single_simulation] never raises; a metric it reports is a
    non-negative count, and it reports one only on success, when the print
    script was run (no [skip_print]) and itself succeeded; a failure
    carries no metric. *)
Theorem run_single_simulation_outcomes call n_nodes lambda_val stdout_only skip_sim
  skip_print rng_seed :
  exists success rx tx,
    run_single_simulation update_aloha_cc update_print_script run_ns3_simulation
      run_print_script call n_nodes lambda_val stdout_only skip_sim skip_print rng_seed
      = Ok (success, rx, tx) /\
    (forall n, rx = Some n -> 0 <= n) /\ (forall n, tx = Some n -> 0 <= n) /\
    (success = false -> rx = None /\ tx = None) /\
    (rx <> None \/ tx <> None ->
       skip_print = false /\ fst (run_print_script call stdout_only true) = true).
Proof.
  unfold run_single_simulation.
  destruct (update_aloha_cc _ _ _), (update_print_script _ _ _); simpl;
    try (exists false, None, None; repeat split; try discriminate; intuition congruence).
  destruct (negb skip_sim && negb (run_ns3_simulation call rng_seed));
    [exists false, None, None; repeat split; try discriminate; intuition congruence|].
  destruct skip_print; simpl;
    [exists true, None, None; repeat split; try discriminate; intuition congruence|].
  destruct (run_print_script call stdout_only true) as [[|] out]; simpl;
    [|exists false, None, None; repeat split; try discriminate; intuition congruence].
  destruct (extract_metrics_ok out) as (rx & tx & -> & Hrx & Htx). simpl.
  exists true, rx, tx. repeat split; auto; discriminate.
Qed.

End SingleProofs.

Section BatchNone.

Variable f : nat -> Z -> Q -> Z -> bool * option Z * option Z.
Hypothesis Hf : forall c n l s, snd (f c n l s) = None.

Lemma repeat_loop_true_none n l reps c rows :
  exists new, repeat_loop f true n l reps c rows = Going (c + List.length reps) (rows ++ new) /\
              Forall (fun r => row_metrics r = None) new.
Proof.
  revert c rows; induction reps as [|rep reps IH]; intros c rows; simpl.
  - exists []. rewrite Nat.add_0_r, app_nil_r. auto.
  - pose proof (Hf (S c) n l rep) as H.
    destruct (f (S c) n l rep) as [[[|] rx] tx]; simpl in H; subst tx;
      [destruct rx|];
      destruct (IH (S c) (rows ++ [{| row_n_nodes := n; row_lambda := l; row_repeat := rep;
                                    row_metrics := None |}])) as (new & -> & Hn);
      rewrite <- app_assoc; eexists; (split; [f_equal; lia|]); constructor; auto.
Qed.

Lemma combo_loop_true_none reps combos c rows :
  exists c' new, combo_loop f true reps combos c rows = Going c' (rows ++ new) /\
                 Forall (fun r => row_metrics r = None) new.
Proof.
  revert c rows; induction combos as [|[n l] combos IH]; intros c rows; simpl.
  - exists c, []. rewrite app_nil_r. auto.
  - destruct (repeat_loop_true_none n l reps c rows) as (new1 & -> & H1).
    destruct (IH (c + List.length reps)%nat (rows ++ new1)) as (c' & new2 & -> & H2).
    rewrite <- app_assoc. exists c', (new1 ++ new2). split; [reflexivity|].
    apply Forall_app; auto.
Qed.

End BatchNone.

(** With [skip_print] and without [skip_failed], a batch over non-empty
    node and lambda lists with at least one repeat stops at its first
    simulation and writes no data row: [run_single_simulation] then never
    reports metrics, and [run_batch_simulation] counts a run without
    metrics as a failure. *)
Theorem batch_skip_print_stops update_aloha_cc update_print_script run_ns3_simulation
  run_print_script stdout_only skip_sim
  (f : nat -> Z -> Q -> Z -> bool * option Z * option Z)
  (Hf : forall c n l s,
      run_single_simulation update_aloha_cc update_print_script run_ns3_simulation
        run_print_script c n l stdout_only skip_sim true (Some s) = Ok (f c n l s))
  ns ls R (Hns : ns <> []) (Hls : ls <> []) (HR : 1 <= R) :
  run_batch_simulation f ns ls false R = (false, []).
Proof.
  destruct ns as [|n ns]; [congruence|]. destruct ls as [|l ls]; [congruence|].
  unfold run_batch_simulation.
  replace (Z.to_nat R) with (S (Z.to_nat (R - 1))) by lia. simpl.
  destruct (single_skip_print update_aloha_cc update_print_script run_ns3_simulation
              run_print_script 1%nat n l stdout_only skip_sim (Some 1)) as [b Hb].
  rewrite Hf in Hb. injection Hb as ->. destruct b; reflexivity.
Qed.

(** With [skip_print] and [skip_failed], a batch completes, writes one row
    per combination and repeat in order, and every row has empty metrics. *)
Theorem batch_skip_print_empty_rows update_aloha_cc update_print_script run_ns3_simulation
  run_print_script stdout_only skip_sim
  (f : nat -> Z -> Q -> Z -> bool * option Z * option Z)
  (Hf : forall c n l s,
      run_single_simulation update_aloha_cc update_print_script run_ns3_simulation
        run_print_script c n l stdout_only skip_sim true (Some s) = Ok (f c n l s))
  ns ls R :
  exists rows, run_batch_simulation f ns ls true R = (true, rows) /\
    map row_key rows = batch_keys (list_prod ns ls) (map Z.of_nat (seq 1 (Z.to_nat R))) /\
    Forall (fun r => row_metrics r = None) rows.
Proof.
  assert (Hn : forall c n l s, snd (f c n l s) = None).
  { intros c n l s.
    destruct (single_skip_print update_aloha_cc update_print_script run_ns3_simulation
                run_print_script c n l stdout_only skip_sim (Some s)) as [b Hb].
    rewrite Hf in Hb. injection Hb as ->. reflexivity. }
  unfold run_batch_simulation.
  destruct (combo_loop_true_none f Hn (map Z.of_nat (seq 1 (Z.to_nat R))) (list_prod ns ls) 0 [])
    as (c' & new & E & Hnone).
  rewrite E. exists new. split; [reflexivity|]. split; [|exact Hnone].
  apply combo_loop_going in E as (new' & Heq & Hk & _). simpl in Heq. subst. exact Hk.
Qed.

Lemma batch_skip_print_stops_witness :
  (forall c n l s,
      run_single_simulation (fun _ _ _ => true) (fun _ _ _ => true) (fun _ _ => true)
        (fun _ _ _ => (true, "RxPackets: 3"%string)) c n l false false true (Some s)
      = Ok (ok_io_single c n l s)) /\
  run_batch_simulation ok_io_single [5] [1%Q] false 2 = (false, []).
Proof.
  assert (Hf : forall c n l s,
      run_single_simulation (fun _ _ _ => true) (fun _ _ _ => true) (fun _ _ => true)
        (fun _ _ _ => (true, "RxPackets: 3"%string)) c n l false false true (Some s)
      = Ok (ok_io_single c n l s)) by (intros; reflexivity).
  split; [exact Hf|].
  apply (batch_skip_print_stops _ _ _ _ false false ok_io_single Hf [5] [1%Q] 2);
    [discriminate | discriminate | lia].
Defined.

Lemma batch_skip_print_empty_rows_witness :
  (forall c n l s,
      run_single_simulation (fun _ _ _ => true) (fun _ _ _ => true) (fun _ _ => true)
        (fun _ _ _ => (true, "RxPackets: 3"%string)) c n l false false true (Some s)
      = Ok (ok_io_single c n l s)) /\
  exists rows, run_batch_simulation ok_io_single [5] [1%Q] true 2 = (true, rows) /\
    map row_key rows = batch_keys (list_prod [5] [1%Q]) (map Z.of_nat (seq 1 (Z.to_nat 2))) /\
    Forall (fun r => row_metrics r = None) rows.
Proof.
  assert (Hf : forall c n l s,
      run_single_simulation (fun _ _ _ => true) (fun _ _ _ => true) (fun _ _ => true)
        (fun _ _ _ => (true, "RxPackets: 3"%string)) c n l false false true (Some s)
      = Ok (ok_io_single c n l s)) by (intros; reflexivity).
  split; [exact Hf|].
  exact (batch_skip_print_empty_rows _ _ _ _ false false ok_io_single Hf [5] [1%Q] 2).
Defined.
